(** * A shallow embedding of [bot.js]

  The bot watches a product page until an order button becomes visible.
  The development follows the source file top to bottom:

  - [JsString] and [Dom]: the strings and the slice of the DOM that the
    extraction callback of [page.evaluate] reads;
  - [Deadline]: [withTimeout], a race between a promise and a timer;
  - [Scroll]: the interval callback of [autoScroll];
  - [Session]: [scrapeUntilButtonFound] as a resumable computation, one
    state per [await];
  - [Bot]: the [/scrape] and [/stop] handlers over the shared
    [scrapingControllers] object and the cancellation tokens it holds.

  Promises are modelled by what they settle with; an [async] function is
  modelled by the state it is suspended in and by what it does, up to
  its next [await], when the promise it awaits settles. *)

From Stdlib Require Import ZArith NArith Lia Bool Ascii String.
From stdpp Require Import base option list gmap strings.


(** ** Lists *)

(** How many entries of a list pass a test. *)
Fixpoint count {A : Type} (p : A -> bool) (l : list A) : nat :=
  match l with
  | [] => 0
  | x :: rest => (if p x then 1 else 0) + count p rest
  end.

(** ** Strings *)

Module JsString.

(** A [string] is read as the UTF-8 encoding of a JavaScript string, as
    the literals of this file are; a string with an unpaired surrogate
    has no such encoding and is left out. *)

Definition of_bytes (l : list nat) : string :=
  fold_right (fun n s => String (ascii_of_nat n) s) EmptyString l.

(** The code points that [String.prototype.trim] removes, each in its
    encoding: the white space U+0009, U+000B, U+000C, U+0020, U+00A0,
    U+1680, U+2000 to U+200A, U+202F, U+205F, U+3000 and U+FEFF, and the
    line terminators U+000A, U+000D, U+2028 and U+2029. *)
Definition WHITE_SPACE : list string :=
  map of_bytes
    [ [9]; [10]; [11]; [12]; [13]; [32];
      [194; 160];
      [225; 154; 128];
      [226; 128; 128]; [226; 128; 129]; [226; 128; 130]; [226; 128; 131];
      [226; 128; 132]; [226; 128; 133]; [226; 128; 134]; [226; 128; 135];
      [226; 128; 136]; [226; 128; 137]; [226; 128; 138];
      [226; 128; 168]; [226; 128; 169]; [226; 128; 175];
      [226; 129; 159];
      [227; 128; 128];
      [239; 187; 191] ].

(** What is left of [s] after the prefix [p], when [s] starts with it. *)
Fixpoint after_prefix (p s : string) : option string :=
  match p, s with
  | EmptyString, _ => Some s
  | String a p', String b s' => if Ascii.eqb a b then after_prefix p' s' else None
  | String _ _, EmptyString => None
  end.

(** What is left of [s] after the first of [ps] that it starts with. *)
Fixpoint after_any (ps : list string) (s : string) : option string :=
  match ps with
  | [] => None
  | p :: ps' =>
      match after_prefix p s with
      | Some rest => Some rest
      | None => after_any ps' s
      end
  end.

(** Removing leading members of [ps], at most [fuel] of them. *)
Fixpoint drop_leading (ps : list string) (fuel : nat) (s : string) : string :=
  match fuel with
  | O => s
  | S fuel' =>
      match after_any ps s with
      | Some rest => drop_leading ps fuel' rest
      | None => s
      end
  end.

(** All of them: none is empty, so the length of [s] bounds their
    number. *)
Definition drop_all_leading (ps : list string) (s : string) : string :=
  drop_leading ps (String.length s) s.

(** The strings that are members of [ps] one after another. *)
Inductive made_of (ps : list string) : string -> Prop :=
| made_of_nil : made_of ps EmptyString
| made_of_cons (p s : string) :
    p ∈ ps -> made_of ps s -> made_of ps (p +:+ s).

Definition trimStart (s : string) : string := drop_all_leading WHITE_SPACE s.

Fixpoint rev_onto (s acc : string) : string :=
  match s with
  | EmptyString => acc
  | String c s' => rev_onto s' (String c acc)
  end.

Definition reverse (s : string) : string := rev_onto s EmptyString.

Definition trimEnd (s : string) : string :=
  reverse (drop_all_leading (map reverse WHITE_SPACE) (reverse s)).

Definition trim (s : string) : string := trimEnd (trimStart s).

(** The line feed of a template literal. *)
Definition LF : string := String (ascii_of_nat 10) EmptyString.

(** What a template literal prints for a value that is a string or
    [null]. *)
Definition show_nullable (v : option string) : string :=
  match v with
  | Some s => s
  | None => "null"
  end.

(** ASCII lower case, the folding that case-insensitive matching of
    names applies: only [A] to [Z] change. *)
Definition ascii_lower (c : ascii) : ascii :=
  let n := nat_of_ascii c in
  if (65 <=? n)%nat && (n <=? 90)%nat then ascii_of_nat (n + 32) else c.

Fixpoint lower (s : string) : string :=
  match s with
  | EmptyString => EmptyString
  | String c s' => String (ascii_lower c) (lower s')
  end.

End JsString.

(** ** The document, as the extraction callback sees it *)

Module Dom.

Record element := {
  classList : list string;
  textContent : string;
  attributes : list (string * string)
}.

(** The document: whether it is in quirks mode (as a page without a
    doctype is), and its elements in document order. *)
Record document := {
  quirksMode : bool;
  elements : list element
}.

(** [classList.contains(token)]: the token itself, in every mode. *)
Definition contains (classes : list string) (token : string) : bool :=
  existsb (String.eqb token) classes.

(** A class selector [.name] against the classes of an element: the
    name itself, and in a quirks-mode document any spelling of it that
    differs in ASCII case only. *)
Definition matches_class (quirks : bool) (classes : list string)
    (name : string) : bool :=
  if quirks
  then existsb (fun c => String.eqb (JsString.lower name) (JsString.lower c)) classes
  else existsb (String.eqb name) classes.

Fixpoint getAttribute (attrs : list (string * string)) (name : string)
  : option string :=
  match attrs with
  | [] => None
  | (k, v) :: rest => if String.eqb k name then Some v else getAttribute rest name
  end.

(** The selector [.order__button.btn-main]: both classes. *)
Definition is_target (quirks : bool) (e : element) : bool :=
  matches_class quirks (classList e) "order__button" &&
  matches_class quirks (classList e) "btn-main".

(** [document.querySelector('.order__button.btn-main')]: the first
    element, in document order, that the selector matches. *)
Definition querySelector (d : document) : option element :=
  find (is_target (quirksMode d)) (elements d).

Record ElementSnapshot := {
  text : string;
  ariaLabel : option string;
  dataLink : option string
}.

(** The callback of the second [page.evaluate]; [None] is [null]. *)
Definition extract (d : document) : option ElementSnapshot :=
  match querySelector d with
  | Some button =>
      if contains (classList button) "hide" then None
      else Some {| text := JsString.trim (textContent button);
                   ariaLabel := getAttribute (attributes button) "aria-label";
                   dataLink := getAttribute (attributes button) "data-link" |}
  | None => None
  end.

(** A page without elements. *)
Definition blank_page : document := {| quirksMode := false; elements := [] |}.

(** A page with the button shown, after an element that is not the
    target. *)
Definition shown_button : document :=
  {| quirksMode := false;
     elements :=
       [ {| classList := ["btn-main"]; textContent := "Menu"; attributes := [] |};
         {| classList := ["order__button"; "btn-main"];
            textContent := "  Order now ";
            attributes := [("aria-label", "Order"); ("data-link", "/checkout")] |} ] |}.

(** A page without a doctype whose button is hidden and spells its
    classes in capitals. *)
Definition quirky_hidden_button : document :=
  {| quirksMode := true;
     elements :=
       [ {| classList := ["Order__Button"; "BTN-MAIN"; "hide"];
            textContent := "Order now"; attributes := [] |};
         {| classList := ["order__button"; "btn-main"];
            textContent := "Order later"; attributes := [] |} ] |}.

End Dom.

(** ** Promises and the deadline guard *)

Module Deadline.

(** How a promise settles: with a value, or with an [Error] of which
    only the message is ever read. *)
Inductive settlement (A : Type) : Type :=
| Fulfilled (value : A)
| Rejected (message : string).
Arguments Fulfilled {A} value.
Arguments Rejected {A} message.

(** A promise over logical time, in milliseconds from its creation. *)
Inductive promise (A : Type) : Type :=
| SettlesAt (t : N) (r : settlement A)
| NeverSettles.
Arguments SettlesAt {A} t r.
Arguments NeverSettles {A}.

(** The longest delay a timer takes, [2^31 - 1] milliseconds. *)
Definition TIMEOUT_MAX : N := 2147483647.

(** [setTimeout(f, ms)]: the delay the timer is armed with. Node sets a
    delay below 1 or above [TIMEOUT_MAX] to 1; a negative duration is
    armed as 0 is. *)
Definition setTimeout_delay (ms : N) : N :=
  if (ms <? 1)%N || (TIMEOUT_MAX <? ms)%N then 1%N else ms.

(** [new Promise((_, reject) => setTimeout(() => reject(new Error(m)), ms))] *)
Definition timer {A : Type} (ms : N) (errorMessage : string) : promise A :=
  SettlesAt (setTimeout_delay ms) (Rejected errorMessage).

(** [Promise.race([p, q])] settles as the first of the two to settle;
    when both are settled at the same instant the earlier array entry
    is the one whose reaction was registered first. The other promise
    is not touched: it is returned as [abandoned], with the behaviour
    it had. *)
Record raced (A : Type) : Type := {
  result : promise A;
  abandoned : option (promise A)
}.
Arguments result {A} r.
Arguments abandoned {A} r.

Definition race {A : Type} (p q : promise A) : raced A :=
  match p, q with
  | SettlesAt t _, SettlesAt u _ =>
      if (t <=? u)%N then {| result := p; abandoned := Some q |}
      else {| result := q; abandoned := Some p |}
  | SettlesAt _ _, NeverSettles => {| result := p; abandoned := Some q |}
  | NeverSettles, SettlesAt _ _ => {| result := q; abandoned := Some p |}
  | NeverSettles, NeverSettles => {| result := NeverSettles; abandoned := None |}
  end.

Definition withTimeout {A : Type} (p : promise A) (ms : N)
    (errorMessage : string) : raced A :=
  race p (timer ms errorMessage).

End Deadline.

(** ** Scrolling *)

Module Scroll.

Local Open Scope Z_scope.

(** What the interval callback reads and writes:
    [document.body.scrollHeight]; the largest vertical offset the
    viewport scrolls to, which is the height of the document's scrolling
    area less that of the viewport (the body's margins count in it, so it
    is not the body's height less [innerHeight]); and the vertical scroll
    offset. *)
Record window := {
  scrollHeight : Z;
  scrollMaxY : Z;
  scrollY : Z
}.

(** [window.scrollBy(0, dy)]: the offset the call scrolls to, clamped
    to the scrollable range. *)
Definition scrollBy (dy : Z) (w : window) : window :=
  {| scrollHeight := scrollHeight w;
     scrollMaxY := scrollMaxY w;
     scrollY := Z.max 0 (Z.min (scrollY w + dy) (scrollMaxY w)) |}.

Definition distance : Z := 500.
Definition cadence : Z := 100.

(** One run of the interval callback. *)
Record tick := {
  at_ms : Z;          (* when the callback ran *)
  seen_height : Z;    (* [scrollHeight], read before scrolling *)
  before : Z;         (* scroll offset before [scrollBy] *)
  after : Z;          (* scroll offset after [scrollBy] *)
  totalHeight : Z     (* the counter, after its increment *)
}.

Section Page.

(** What the page's own scripts do to the document between two runs
    of the callback (lazy sections being attached, for instance). *)
Variable between_ticks : window -> window.

(** The callbacks of [setInterval(..., 100)] until [clearInterval];
    [None] when [fuel] callbacks did not reach it. *)
Fixpoint interval (fuel : nat) (w : window) (total now : Z)
    : option (list tick * window) :=
    match fuel with
    | O => None
    | S fuel' =>
        let now' := now + cadence in
        let h := scrollHeight w in
        let w' := scrollBy distance w in
        let total' := total + distance in
        let t := {| at_ms := now'; seen_height := h; before := scrollY w;
                    after := scrollY w'; totalHeight := total' |} in
        if total' >=? h then Some ([t], w')
        else match interval fuel' (between_ticks w') total' now' with
             | Some (ts, wf) => Some (t :: ts, wf)
             | None => None
             end
    end.

Definition autoScroll (fuel : nat) (w : window) : option (list tick * window) :=
    interval fuel w 0 0.

(** The window as the callback finds it on its run number [k], counted
    from 0: scrolled by the runs before it, and changed by the page
    between them. *)
Fixpoint window_at (k : nat) (w : window) : window :=
    match k with
    | O => w
    | S k' => window_at k' (between_ticks (scrollBy distance w))
    end.

End Page.

(** Two pages to run the routine on. *)

(** A page whose body is 2000 high and which scrolls down to 1000: no
    script runs between the ticks. *)
Definition static_page : window :=
  {| scrollHeight := 2000; scrollMaxY := 1000; scrollY := 0 |}.




End Scroll.

(** ** The watch session: [scrapeUntilButtonFound] *)

Module Session.

Import Deadline Dom.

(** How the [try] block, and in the end the function's promise, completes:
    [return data] or a thrown [Error]. *)
Inductive completion : Type :=
| Return (data : ElementSnapshot)
| Throw (message : string).

(** The three outcomes of a session. A failure is any thrown error
    other than the one the cancellation check throws. *)
Definition Found (data : ElementSnapshot) : completion := Return data.
Definition Cancelled : completion := Throw "Scraping stopped by user.".
Definition Failed (reason : string) : completion := Throw reason.

(** The [await] the function is suspended at. *)
Inductive await : Type :=
| AwaitLaunch                       (* puppeteer.launch(...) *)
| AwaitNewPage                      (* browser.newPage() *)
| AwaitSetUserAgent                 (* page.setUserAgent(...) *)
| AwaitGoto                         (* withTimeout(page.goto(...), ...) *)
| AwaitLoaded                       (* setTimeout(r, 1000) *)
| AwaitAutoScroll                   (* autoScroll(page) *)
| AwaitScrolled                     (* setTimeout(r, 2000) *)
| AwaitEvaluate                     (* page.evaluate(...) *)
| AwaitRetry                        (* setTimeout(resolve, RETRY_DELAY) *)
| AwaitClose (pending : completion) (* browser.close(), in [finally] *).

(** What the awaited promise settled with. For the navigation it is the
    behaviour of [page.goto] itself; the race against the timer is run by
    the session. *)
Inductive resumption : Type :=
| Launched (r : settlement unit)
| PageOpened (r : settlement unit)
| UserAgentSet (r : settlement unit)
| Navigated (goto : promise unit)
| TimerFired
| Scrolled (r : settlement unit)
| Evaluated (r : settlement document)
| Closed (r : settlement unit).

(** The calls the function makes on the renderer, the timers and the
    logger. *)
Inductive call : Type :=
| Launch
| NewPage
| SetUserAgent (ua : string)
| Goto (url : string)
| SetTimeout (ms : N)
| AutoScroll
| Evaluate
| Close
| LogInfo (line : string)
| LogError (line : string).

Definition USER_AGENT : string :=
  "Mozilla/5.0 (Windows NT 10.0; Win64; x64) AppleWebKit/537.36 (KHTML, like Gecko)".

(** The function's locals that outlive an [await]: its argument [url],
    whether [browser] has been assigned, and where it is suspended. *)
Record session : Type := {
  url : string;
  browser : bool;
  point : await
}.

Definition suspend_at (s : session) (a : await) : session :=
  {| url := url s; browser := browser s; point := a |}.

Inductive progress : Type :=
| Suspended (s : session)
| Finished (c : completion).

Definition after (line : call) (k : progress * list call) : progress * list call :=
  (fst k, line :: snd k).

Section Config.

(** [RETRY_DELAY] and [PAGE_TIMEOUT], as read from the environment. *)
Variable RETRY_DELAY : N.
Variable PAGE_TIMEOUT : N.

(** The [finally] block: [if (browser) await browser.close()], then the
    pending completion. *)
Definition finally (s : session) (c : completion) : progress * list call :=
  if browser s then (Suspended (suspend_at s (AwaitClose c)), [Close])
  else (Finished c, []).

(** The last statement of the loop body. *)
Definition retry (s : session) : progress * list call :=
  (Suspended (suspend_at s AwaitRetry), [SetTimeout RETRY_DELAY]).

(** [catch (innerError)], falling through to the retry delay. *)
Definition catch_inner (s : session) (message : string) : progress * list call :=
  after (LogError ("Error during scraping attempt: " +:+ message)) (retry s).

(** The top of [while (true)]; [cancelled] is the token's field as read
    there. *)
Definition loop_head (cancelled : bool) (s : session) : progress * list call :=
  if cancelled then
    after (LogInfo "Scraping cancelled by user.")
          (finally s (Throw "Scraping stopped by user."))
  else
    (Suspended (suspend_at s AwaitGoto),
     [LogInfo ("Navigating to " +:+ url s); Goto (url s); SetTimeout PAGE_TIMEOUT]).

(** What the function does, up to its next [await] or its completion,
    when the promise it awaits settles. [None]: the settlement is not one
    of the promise awaited at this point. *)
Definition resume (cancelled : bool) (s : session) (r : resumption)
  : option (progress * list call) :=
  match point s, r with
  | AwaitLaunch, Launched (Fulfilled _) =>
      Some (Suspended {| url := url s; browser := true; point := AwaitNewPage |},
            [NewPage])
  | AwaitLaunch, Launched (Rejected m) => Some (finally s (Throw m))
  | AwaitNewPage, PageOpened (Fulfilled _) =>
      Some (Suspended (suspend_at s AwaitSetUserAgent), [SetUserAgent USER_AGENT])
  | AwaitNewPage, PageOpened (Rejected m) => Some (finally s (Throw m))
  | AwaitSetUserAgent, UserAgentSet (Fulfilled _) => Some (loop_head cancelled s)
  | AwaitSetUserAgent, UserAgentSet (Rejected m) => Some (finally s (Throw m))
  | AwaitGoto, Navigated goto =>
      match result (withTimeout goto PAGE_TIMEOUT "Page navigation timed out") with
      | SettlesAt _ (Fulfilled _) =>
          Some (Suspended (suspend_at s AwaitLoaded), [SetTimeout 1000])
      | SettlesAt _ (Rejected m) => Some (catch_inner s m)
      | NeverSettles => None
      end
  | AwaitLoaded, TimerFired =>
      Some (Suspended (suspend_at s AwaitAutoScroll), [AutoScroll])
  | AwaitAutoScroll, Scrolled (Fulfilled _) =>
      Some (Suspended (suspend_at s AwaitScrolled), [SetTimeout 2000])
  | AwaitAutoScroll, Scrolled (Rejected m) => Some (catch_inner s m)
  | AwaitScrolled, TimerFired =>
      Some (Suspended (suspend_at s AwaitEvaluate), [Evaluate])
  | AwaitEvaluate, Evaluated (Fulfilled d) =>
      match extract d with
      | Some data => Some (after (LogInfo "Button found.") (finally s (Return data)))
      | None =>
          Some (after (LogInfo "Button not found or is hidden. Retrying in 5 seconds...")
                      (retry s))
      end
  | AwaitEvaluate, Evaluated (Rejected m) => Some (catch_inner s m)
  | AwaitRetry, TimerFired => Some (loop_head cancelled s)
  | AwaitClose c, Closed (Fulfilled _) => Some (Finished c, [])
  | AwaitClose _, Closed (Rejected m) => Some (Finished (Throw m), [])
  | _, _ => None
  end.

(** The call of the function: everything up to its first [await]. *)
Definition start (u : string) : session * list call :=
  ({| url := u; browser := false; point := AwaitLaunch |}, [Launch]).

(** A session driven by the settlements it awaits, each paired with the
    token's [cancelled] field at that moment. [None]: a settlement in the
    list is not the awaited one, or arrives after completion. *)
Fixpoint drive (s : session) (inputs : list (bool * resumption))
  : option (progress * list call) :=
  match inputs with
  | [] => Some (Suspended s, [])
  | (cancelled, r) :: rest =>
      match resume cancelled s r with
      | Some (Suspended s', calls) =>
          match drive s' rest with
          | Some (p, calls') => Some (p, calls ++ calls')
          | None => None
          end
      | Some (Finished c, calls) =>
          match rest with
          | [] => Some (Finished c, calls)
          | _ :: _ => None
          end
      | None => None
      end
  end.

Definition scrapeUntilButtonFound (u : string) (inputs : list (bool * resumption))
  : option (progress * list call) :=
  match drive (fst (start u)) inputs with
  | Some (p, calls) => Some (p, snd (start u) ++ calls)
  | None => None
  end.

End Config.

(** Counting calls. *)
Definition is_goto (c : call) : bool :=
  match c with Goto _ => true | _ => false end.
Definition is_close (c : call) : bool :=
  match c with Close => true | _ => false end.
Definition navigations (calls : list call) : nat := count is_goto calls.
Definition closes (calls : list call) : nat := count is_close calls.


(** The sessions that the function can be suspended in: [browser] is
    unassigned exactly up to the settlement of the launch. *)
Definition consistent (s : session) : Prop :=
  browser s = match point s with AwaitLaunch => false | _ => true end.

(** The failures of one attempt, by the point they arrive at, with the
    message of the error that [catch (innerError)] receives: the
    navigation rejecting before the deadline, the deadline passing first,
    and the two [page.evaluate] calls rejecting. *)
Inductive attempt_failure (PAGE_TIMEOUT : N) : await -> resumption -> string -> Prop :=
| goto_rejects (t : N) (m : string) :
    (t <= setTimeout_delay PAGE_TIMEOUT)%N ->
    attempt_failure PAGE_TIMEOUT AwaitGoto (Navigated (SettlesAt t (Rejected m))) m
| goto_late (t : N) (r : settlement unit) :
    (setTimeout_delay PAGE_TIMEOUT < t)%N ->
    attempt_failure PAGE_TIMEOUT AwaitGoto (Navigated (SettlesAt t r))
                    "Page navigation timed out"
| goto_hangs :
    attempt_failure PAGE_TIMEOUT AwaitGoto (Navigated NeverSettles)
                    "Page navigation timed out"
| autoScroll_rejects (m : string) :
    attempt_failure PAGE_TIMEOUT AwaitAutoScroll (Scrolled (Rejected m)) m
| evaluate_rejects (m : string) :
    attempt_failure PAGE_TIMEOUT AwaitEvaluate (Evaluated (Rejected m)) m.



End Session.

(** ** URLs *)

Module Url.

Definition is_alpha (c : ascii) : bool :=
  let n := nat_of_ascii c in
  ((65 <=? n)%nat && (n <=? 90)%nat) || ((97 <=? n)%nat && (n <=? 122)%nat).

Definition is_digit (c : ascii) : bool :=
  let n := nat_of_ascii c in (48 <=? n)%nat && (n <=? 57)%nat.

(** After its first letter a scheme goes on with letters, digits, [+],
    [-] and [.], up to a colon. *)
Fixpoint scheme_tail (s : string) : bool :=
  match s with
  | EmptyString => false
  | String c rest =>
      if Ascii.eqb c ":" then true
      else if is_alpha c || is_digit c || Ascii.eqb c "+" || Ascii.eqb c "-"
              || Ascii.eqb c "."
           then scheme_tail rest
           else false
  end.

(** The first thing [new URL(url)], given no base, asks of its argument:
    that it starts with a scheme. A string without one makes the
    constructor throw. The constructor rejects more than this test does
    (a special scheme without a host, for instance); the test stands in
    for it in the examples only, on URLs that both judge alike. *)
Definition has_scheme (s : string) : bool :=
  match s with
  | EmptyString => false
  | String c rest => is_alpha c && scheme_tail rest
  end.

End Url.

(** ** The bot: handlers, controllers and tokens *)

Module Bot.

Import Deadline Dom Session.

(** What the event loop delivers: a message matched by one of the
    [onText] patterns, with the chat it came from, or the settlement of
    the promise that a suspended [/scrape] handler awaits. For
    [/scrape], [url] is [match[1].trim()]. *)
Inductive update : Type :=
| OnStart (chatId : Z)
| OnScrape (chatId : Z) (url : string)
| OnStop (chatId : Z)
| Settle (sid : nat) (r : resumption).

(** What the handlers do, in order. A handler invocation is named by the
    address of the token it created. [Settled] marks the settlement of
    the promise returned by [scrapeUntilButtonFound]. *)
Inductive effect : Type :=
| SendMessage (chatId : Z) (text : string)
| NewToken (addr : nat)
| SetController (chatId : Z) (addr : nat)
| SetCancelled (addr : nat)
| DeleteController (sid : nat) (chatId : Z)
| Called (sid : nat) (c : call)
| Settled (sid : nat) (c : completion)
| ConsoleLog (sid : nat) (message : string).

(** A suspended invocation of the [/scrape] handler: its local [chatId]
    and the session it awaits. Its local [cancellationToken] is the
    address it is filed under. *)
Record handler : Type := {
  chatId : Z;
  body : session
}.

Record bot : Type := {
  tokens : list bool;                 (* tokens !! a: field [cancelled] of the token at a *)
  scrapingControllers : gmap Z nat;   (* chat id to token address *)
  running : gmap nat handler;         (* suspended /scrape handlers *)
  trace : list effect
}.

Definition boot : bot :=
  {| tokens := []; scrapingControllers := ∅; running := ∅; trace := [] |}.

Definition emit (b : bot) (es : list effect) : bot :=
  {| tokens := tokens b;
     scrapingControllers := scrapingControllers b;
     running := running b;
     trace := trace b ++ es |}.

Definition GREETING : string :=
  "Hello! I am your Telegram bot. Use /scrape <url> to check the product page."
  +:+ JsString.LF +:+ "Use /stop to cancel an active scrape.".

Definition ALREADY_RUNNING : string :=
  "A scraping process is already running. Use /stop to cancel it before starting a new one.".

Definition found_message (data : ElementSnapshot) : string :=
  "Button found!" +:+ JsString.LF +:+
  "Text: " +:+ text data +:+ JsString.LF +:+
  "Aria Label: " +:+ JsString.show_nullable (ariaLabel data) +:+ JsString.LF +:+
  "Data Link: " +:+ JsString.show_nullable (dataLink data).

(** The two lines the [/scrape] handler itself logs. *)
Definition request_line (u : string) : call :=
  LogInfo ("Received scraping request for URL: " +:+ u).

Definition stopped_line : call := LogError "Scraping stopped:".

(** The [/scrape] handler from the settlement of the session on: the rest
    of [try], or [catch], then [finally]. *)
Definition conclude (sid : nat) (chat : Z) (c : completion) : list effect :=
  Settled sid c ::
  match c with
  | Return data => [SendMessage chat (found_message data)]
  | Throw m =>
      [Called sid stopped_line;
       SendMessage chat ("Scraping stopped: " +:+ m);
       ConsoleLog sid m]
  end ++ [DeleteController sid chat].

(** The token's field, as the session reads it. *)
Definition cancelled (b : bot) (addr : nat) : bool :=
  default false (tokens b !! addr).

Section Handlers.

Variable RETRY_DELAY : N.
Variable PAGE_TIMEOUT : N.

(** Whether [new URL(url)] returns rather than throws. *)
Variable url_parses : string -> bool.

Definition onScrape (b : bot) (chat : Z) (u : string) : bot :=
  if negb (url_parses u) then emit b [SendMessage chat "Invalid URL provided."]
  else match scrapingControllers b !! chat with
       | Some _ => emit b [SendMessage chat ALREADY_RUNNING]
       | None =>
           let sid := length (tokens b) in
           {| tokens := tokens b ++ [false];
              scrapingControllers := <[chat := sid]> (scrapingControllers b);
              running := <[sid := {| chatId := chat; body := fst (start u) |}]> (running b);
              trace := trace b ++
                [NewToken sid; SetController chat sid; Called sid (request_line u)]
                ++ (Called sid <$> snd (start u)) |}
       end.

Definition onStop (b : bot) (chat : Z) : bot :=
  match scrapingControllers b !! chat with
  | Some addr =>
      {| tokens := <[addr := true]> (tokens b);
         scrapingControllers := scrapingControllers b;
         running := running b;
         trace := trace b ++
           [SetCancelled addr; SendMessage chat "Scraping has been stopped."] |}
  | None => emit b [SendMessage chat "No active scraping process to stop."]
  end.

Definition onSettle (b : bot) (sid : nat) (r : resumption) : bot :=
  match running b !! sid with
  | None => b
  | Some h =>
      match resume RETRY_DELAY PAGE_TIMEOUT (cancelled b sid) (body h) r with
      | None => b
      | Some (Suspended s', calls) =>
          {| tokens := tokens b;
             scrapingControllers := scrapingControllers b;
             running := <[sid := {| chatId := chatId h; body := s' |}]> (running b);
             trace := trace b ++ (Called sid <$> calls) |}
      | Some (Finished c, calls) =>
          {| tokens := tokens b;
             scrapingControllers := delete (chatId h) (scrapingControllers b);
             running := delete sid (running b);
             trace := trace b ++ (Called sid <$> calls) ++ conclude sid (chatId h) c |}
      end
  end.

Definition step (b : bot) (u : update) : bot :=
  match u with
  | OnStart chat => emit b [SendMessage chat GREETING]
  | OnScrape chat url => onScrape b chat url
  | OnStop chat => onStop b chat
  | Settle sid r => onSettle b sid r
  end.

Definition run_from (b : bot) (us : list update) : bot := fold_left step us b.

Definition run (us : list update) : bot := run_from boot us.

End Handlers.

(** Counting in the trace. *)
Definition is_goto_of (sid : nat) (e : effect) : bool :=
  match e with Called s (Goto _) => Nat.eqb s sid | _ => false end.
Definition is_delete_of (sid : nat) (e : effect) : bool :=
  match e with DeleteController s _ => Nat.eqb s sid | _ => false end.
Definition is_settled_of (sid : nat) (e : effect) : bool :=
  match e with Settled s _ => Nat.eqb s sid | _ => false end.
Definition is_admission_of (sid : nat) (e : effect) : bool :=
  match e with SetController _ s => Nat.eqb s sid | _ => false end.

Definition navigations_of (sid : nat) (tr : list effect) : nat := count (is_goto_of sid) tr.
Definition deletions_of (sid : nat) (tr : list effect) : nat := count (is_delete_of sid) tr.
Definition settlements_of (sid : nat) (tr : list effect) : nat := count (is_settled_of sid) tr.
Definition admissions_of (sid : nat) (tr : list effect) : nat := count (is_admission_of sid) tr.

(** The calls of one handler invocation, in order. *)
Definition called_by (sid : nat) (e : effect) : option call :=
  match e with
  | Called s c => if Nat.eqb s sid then Some c else None
  | _ => None
  end.

Fixpoint calls_of (sid : nat) (tr : list effect) : list call :=
  match tr with
  | [] => []
  | e :: rest =>
      match called_by sid e with
      | Some c => c :: calls_of sid rest
      | None => calls_of sid rest
      end
  end.

(** What [catch] logs after the session. *)
Definition handler_log (c : completion) : list call :=
  match c with
  | Return _ => []
  | Throw _ => [stopped_line]
  end.

(** Every removal of a controller comes after the settlement of the
    session of the handler that removes it. *)
Definition settled_before_deleted (tr : list effect) : Prop :=
  forall i sid chat,
    tr !! i = Some (DeleteController sid chat) ->
    exists j c, j < i /\ tr !! j = Some (Settled sid c).

(** A session is active for a conversation. *)
Definition active (b : bot) (chat : Z) : Prop :=
  exists sid h, running b !! sid = Some h /\ chatId h = chat.

(** What holds of the bot after any updates. *)
Record invariant (b : bot) : Prop := {
  inv_controllers : forall chat sid,
    scrapingControllers b !! chat = Some sid <->
    exists s, running b !! sid = Some {| chatId := chat; body := s |};
  inv_allocated : forall sid h, running b !! sid = Some h -> sid < length (tokens b);
  inv_consistent : forall sid h, running b !! sid = Some h -> consistent (body h);
  inv_admissions : forall sid,
    admissions_of sid (trace b) = if decide (sid < length (tokens b)) then 1 else 0;
  inv_deletions : forall sid,
    deletions_of sid (trace b) =
    if decide (sid < length (tokens b) /\ running b !! sid = None) then 1 else 0;
  inv_settlements : forall sid,
    settlements_of sid (trace b) = deletions_of sid (trace b);
  inv_order : settled_before_deleted (trace b)
}.

(** The sessions of the bot are runs of [scrapeUntilButtonFound]: the
    calls of a suspended or settled handler are the request line, then
    the calls of such a run, then what [catch] logs. *)
Record chronicle (RETRY_DELAY PAGE_TIMEOUT : N) (b : bot) : Prop := {
  chr_fresh : forall sid, length (tokens b) <= sid -> calls_of sid (trace b) = [];
  chr_running : forall sid h,
    running b !! sid = Some h ->
    exists inputs calls,
      scrapeUntilButtonFound RETRY_DELAY PAGE_TIMEOUT (url (body h)) inputs =
        Some (Suspended (body h), calls) /\
      calls_of sid (trace b) = request_line (url (body h)) :: calls;
  chr_settled : forall sid c,
    Settled sid c ∈ trace b ->
    exists u inputs calls,
      scrapeUntilButtonFound RETRY_DELAY PAGE_TIMEOUT u inputs =
        Some (Finished c, calls) /\
      calls_of sid (trace b) = request_line u :: calls ++ handler_log c
}.

End Bot.

(** ** Scripted settlements

    The settlements of a session in which nothing fails but the search
    for the button; the token is read unset throughout. *)

Module Script.

Import Deadline Dom Session.

(** Launch, page and user agent, all fulfilled. *)
Definition setup : list (bool * resumption) :=
  [(false, Launched (Fulfilled tt));
   (false, PageOpened (Fulfilled tt));
   (false, UserAgentSet (Fulfilled tt))].

(** One pass through the [try] of the loop body: the navigation is
    fulfilled after [t] ms and the evaluation sees document [d]. *)
Definition attempt (td : N * document) : list (bool * resumption) :=
  [(false, Navigated (SettlesAt td.1 (Fulfilled tt)));
   (false, TimerFired);
   (false, Scrolled (Fulfilled tt));
   (false, TimerFired);
   (false, Evaluated (Fulfilled td.2))].

(** A pass followed by the retry delay. *)
Definition round (td : N * document) : list (bool * resumption) :=
  attempt td ++ [(false, TimerFired)].

Fixpoint rounds (tds : list (N * document)) : list (bool * resumption) :=
  match tds with
  | [] => []
  | td :: rest => round td ++ rounds rest
  end.

(** What the function calls during one round. *)
Definition round_calls (RETRY_DELAY PAGE_TIMEOUT : N) (u : string) : list call :=
  [SetTimeout 1000; AutoScroll; SetTimeout 2000; Evaluate;
   LogInfo "Button not found or is hidden. Retrying in 5 seconds...";
   SetTimeout RETRY_DELAY;
   LogInfo ("Navigating to " +:+ u); Goto u; SetTimeout PAGE_TIMEOUT].

(** Every navigation in a list of calls is followed at once by the
    page timeout being armed. *)
Definition every_goto_guarded (PAGE_TIMEOUT : N) (calls : list call) : Prop :=
  forall i u, calls !! i = Some (Goto u) ->
              calls !! S i = Some (SetTimeout PAGE_TIMEOUT).

(** The points at which the loop reads the token when resumed. *)
Definition reads_token (a : await) : bool :=
  match a with
  | AwaitSetUserAgent | AwaitRetry => true
  | _ => false
  end.

End Script.

(** ** Messages and patterns

    The three patterns registered with [bot.onText], as [RegExp.exec]
    applies them to the text of a message (a string read as in
    [JsString]). *)

Module Dispatch.

Import Bot.

(** The code points that [.] does not match, each in its encoding: the
    line terminators U+000A, U+000D, U+2028 and U+2029. *)
Definition LINE_TERMINATORS : list string :=
  map JsString.of_bytes [ [10]; [13]; [226; 128; 168]; [226; 128; 169] ].

(** Whether [s] starts with one of them. *)
Definition at_line_terminator (s : string) : bool :=
  match JsString.after_any LINE_TERMINATORS s with
  | Some _ => true
  | None => false
  end.

(** The rest of [s] after the prefix [p], if [s] starts with it. *)
Fixpoint strip_prefix (p s : string) : option string :=
  match p, s with
  | EmptyString, _ => Some s
  | String a p', String b s' => if Ascii.eqb a b then strip_prefix p' s' else None
  | String _ _, EmptyString => None
  end.

(** A pattern without operators, such as [/\/stop/], matches when the
    text contains it. *)
Fixpoint occurs (p s : string) : bool :=
  match strip_prefix p s with
  | Some _ => true
  | None =>
      match s with
      | EmptyString => false
      | String _ s' => occurs p s'
      end
  end.

(** What a greedy [.+] takes at the start of [s]: everything up to the
    first line terminator. *)
Fixpoint dot_plus (s : string) : string :=
  match s with
  | EmptyString => EmptyString
  | String c s' => if at_line_terminator s then EmptyString else String c (dot_plus s')
  end.

(** [/\/scrape (.+)/.exec(text)]: the capture of the leftmost match. *)
Fixpoint exec_scrape (s : string) : option string :=
  let later := match s with
               | EmptyString => None
               | String _ s' => exec_scrape s'
               end in
  match strip_prefix "/scrape " s with
  | Some rest =>
      match dot_plus rest with
      | EmptyString => later
      | capture => Some capture
      end
  | None => later
  end.

(** The handlers that a text message sets off, in the order of their
    registration: [/start], [/scrape] with [match[1].trim()], [/stop].
    The bot is created without [onlyFirstMatch], so every handler whose
    pattern matches is called. *)
Definition handlers (chat : Z) (text : string) : list update :=
  (if occurs "/start" text then [OnStart chat] else []) ++
  match exec_scrape text with
  | Some capture => [OnScrape chat (JsString.trim capture)]
  | None => []
  end ++
  (if occurs "/stop" text then [OnStop chat] else []).

(** A text message arrives. *)
Definition deliver (RETRY_DELAY PAGE_TIMEOUT : N) (url_parses : string -> bool)
    (b : bot) (chat : Z) (text : string) : bot :=
  run_from RETRY_DELAY PAGE_TIMEOUT url_parses b (handlers chat text).

End Dispatch.

(** * Properties *)

Lemma count_app {A : Type} (p : A -> bool) (l k : list A) :
  count p (l ++ k) = count p l + count p k.
Proof.
  induction l as [|x l IH]; simpl; [reflexivity|].
  rewrite IH. lia.
Qed.

(** ** The deadline guard *)

Section DeadlineFacts.

Import Deadline.

(** The delay a timer is armed with: the duration itself from 1 to
    [TIMEOUT_MAX], and 1 outside that range. *)
Lemma setTimeout_delay_spec (ms : N) :
  ((1 <= ms <= TIMEOUT_MAX)%N -> setTimeout_delay ms = ms) /\
  ((ms < 1)%N \/ (TIMEOUT_MAX < ms)%N -> setTimeout_delay ms = 1%N).
Proof.
  unfold setTimeout_delay.
  destruct (N.ltb_spec ms 1), (N.ltb_spec TIMEOUT_MAX ms); simpl; split; lia.
Qed.




(** The guard always settles, and never later than the timer's delay. *)
Lemma withTimeout_settles (A : Type) (p : promise A) (ms : N) (reason : string) :
  exists t r, result (withTimeout p ms reason) = SettlesAt t r /\
              (t <= setTimeout_delay ms)%N.
Proof.
  unfold withTimeout, race, timer. destruct p as [t r|].
  - destruct (N.leb_spec t (setTimeout_delay ms)); eexists _, _;
      (split; [reflexivity | lia]).
  - eexists _, _. split; [reflexivity | lia].
Qed.

End DeadlineFacts.

(** ** Scrolling *)

Section ScrollFacts.

Import Scroll.
Local Open Scope Z_scope.

Lemma scrollBy_height (dy : Z) (w : window) :
  scrollHeight (scrollBy dy w) = scrollHeight w.
Proof. reflexivity. Qed.

Lemma interval_ticks (script : window -> window) (fuel : nat) :
  forall (w : window) (total now : Z) (run : list tick) (w' : window),
    interval script fuel w total now = Some (run, w') ->
    run <> [] /\
    w' = scrollBy distance (window_at script (length run - 1) w) /\
    forall (i : nat) (t : tick),
      run !! i = Some t ->
      at_ms t = now + cadence * (Z.of_nat i + 1) /\
      totalHeight t = total + distance * (Z.of_nat i + 1) /\
      seen_height t = scrollHeight (window_at script i w) /\
      before t = scrollY (window_at script i w) /\
      after t = scrollY (scrollBy distance (window_at script i w)) /\
      (totalHeight t >= seen_height t <-> S i = length run).
Proof.
  induction fuel as [|fuel IH]; intros w total now run w' Hrun; [discriminate|].
  simpl in Hrun.
  destruct (Z.geb_spec (total + distance) (scrollHeight w)) as [Hstop|Hgo].
  - injection Hrun as <- <-. split; [discriminate|]. split; [reflexivity|].
    intros [|i] t Ht; [|discriminate].
    injection Ht as <-. simpl. unfold cadence, distance in *.
    repeat split; try lia.
  - destruct (interval script fuel (script (scrollBy distance w))
                (total + distance) (now + cadence)) as [[ts wf]|] eqn:Hrest;
      [|discriminate].
    injection Hrun as <- <-. split; [discriminate|].
    destruct (IH _ _ _ _ _ Hrest) as (Hne & Hend & Hts).
    split.
    { rewrite Hend. destruct ts as [|t0 ts]; [congruence|].
      simpl. rewrite Nat.sub_0_r. reflexivity. }
    intros [|i] t Ht.
    + injection Ht as <-. simpl. unfold cadence, distance in *.
      repeat split; try lia.
      intros Hlen. destruct ts; [congruence | simpl in Hlen; lia].
    + simpl in Ht.
      destruct (Hts i t Ht) as (Hat & Htot & Hseen & Hbefore & Hafter & Hlast).
      simpl. unfold cadence, distance in *.
      repeat split; first [assumption | lia].
Qed.

Lemma interval_bounded (script : window -> window) (H : Z) :
  (forall v, scrollHeight v <= H -> scrollHeight (script v) <= H) ->
  forall (fuel : nat) (w : window) (total now : Z),
    scrollHeight w <= H ->
    (1 <= fuel)%nat ->
    H - total <= distance * Z.of_nat fuel ->
    exists run w', interval script fuel w total now = Some (run, w') /\
                   (length run <= fuel)%nat.
Proof.
  intros Hscript. induction fuel as [|fuel IH]; intros w total now Hw Hfuel Hroom;
    [lia|].
  simpl.
  destruct (Z.geb_spec (total + distance) (scrollHeight w)) as [Hstop|Hgo].
  - eexists _, _. split; [reflexivity | simpl; lia].
  - unfold distance in *.
    destruct (IH (script (scrollBy 500 w)) (total + 500) (now + cadence))
      as (run & w' & Hrun & Hlen).
    + apply Hscript. rewrite scrollBy_height. exact Hw.
    + lia.
    + lia.
    + unfold distance in Hrun. rewrite Hrun.
      eexists _, _. split; [reflexivity | simpl; lia].
Qed.





End ScrollFacts.

(** ** The document *)

Section DomFacts.

Import JsString Dom.

Lemma contains_elem_of (classes : list string) (token : string) :
  contains classes token = true <-> token ∈ classes.
Proof.
  unfold contains. rewrite existsb_exists. split.
  - intros (c & Hin & Heq). apply String.eqb_eq in Heq. subst c.
    apply list_elem_of_In. exact Hin.
  - intros Hin. exists token. split; [apply list_elem_of_In; exact Hin|].
    apply String.eqb_refl.
Qed.

Lemma matches_class_exact (classes : list string) (name : string) :
  matches_class false classes name = true <-> name ∈ classes.
Proof. apply contains_elem_of. Qed.

Lemma matches_class_quirks (classes : list string) (name : string) :
  matches_class true classes name = true <->
  exists c, c ∈ classes /\ lower c = lower name.
Proof.
  unfold matches_class. rewrite existsb_exists. split.
  - intros (c & Hin & Heq). apply String.eqb_eq in Heq.
    exists c. split; [apply list_elem_of_In; exact Hin | congruence].
  - intros (c & Hin & Heq). exists c.
    split; [apply list_elem_of_In; exact Hin|]. apply String.eqb_eq. congruence.
Qed.

Lemma querySelector_first (q : bool) (pre : list element) (e : element)
    (rest : list element) :
  Forall (fun x => is_target q x = false) pre ->
  is_target q e = true ->
  querySelector {| quirksMode := q; elements := pre ++ e :: rest |} = Some e.
Proof.
  unfold querySelector. simpl. intros Hpre He.
  induction pre as [|x pre IH]; simpl.
  - rewrite He. reflexivity.
  - apply Forall_cons in Hpre as [Hx Hpre]. rewrite Hx. exact (IH Hpre).
Qed.

Lemma querySelector_Some (d : document) (e : element) :
  querySelector d = Some e ->
  exists pre rest,
    elements d = pre ++ e :: rest /\
    Forall (fun x => is_target (quirksMode d) x = false) pre /\
    is_target (quirksMode d) e = true.
Proof.
  unfold querySelector. generalize (quirksMode d) as q, (elements d) as l.
  intros q l. induction l as [|x l IH]; simpl; [discriminate|].
  destruct (is_target q x) eqn:Hx.
  - intros [= ->]. exists [], l. repeat split; [constructor | exact Hx].
  - intros Hfind. destruct (IH Hfind) as (pre & rest & -> & Hpre & He).
    exists (x :: pre), rest. repeat split; [constructor; assumption | exact He].
Qed.

Lemma querySelector_None (d : document) :
  querySelector d = None <->
  Forall (fun x => is_target (quirksMode d) x = false) (elements d).
Proof.
  unfold querySelector. generalize (quirksMode d) as q, (elements d) as l.
  intros q l. induction l as [|x l IH]; simpl.
  - split; [constructor | reflexivity].
  - destruct (is_target q x) eqn:Hx.
    + split; [discriminate|]. intros Hall.
      apply Forall_cons in Hall as [Hx' _]. congruence.
    + rewrite IH. split; [intros Hl; constructor; assumption|].
      intros Hall. apply Forall_cons in Hall as [_ Hl]. exact Hl.
Qed.

Lemma extract_None (d : document) :
  extract d = None <->
  querySelector d = None \/
  exists e, querySelector d = Some e /\ contains (classList e) "hide" = true.
Proof.
  unfold extract. destruct (querySelector d) as [e|].
  - destruct (contains (classList e) "hide") eqn:Hhide.
    + split; [|reflexivity]. intros _. right. exists e. split; [reflexivity | exact Hhide].
    + split; [discriminate|]. intros [Hnone|(e' & [= <-] & Hh)]; congruence.
  - split; [|reflexivity]. intros _. left. reflexivity.
Qed.

End DomFacts.

(** ** The watch session *)

Section SessionFacts.

Import Deadline Dom Session.

Variable RETRY_DELAY : N.
Variable PAGE_TIMEOUT : N.

Local Abbreviation resume := (Session.resume RETRY_DELAY PAGE_TIMEOUT).
Local Abbreviation drive := (Session.drive RETRY_DELAY PAGE_TIMEOUT).
Local Abbreviation scrapeUntilButtonFound :=
  (Session.scrapeUntilButtonFound RETRY_DELAY PAGE_TIMEOUT).

Ltac break_resume H :=
  unfold Session.resume, loop_head, catch_inner, retry, finally, after in H;
  repeat match type of H with
         | context [match ?x with _ => _ end] => destruct x eqn:?; try discriminate
         end;
  simpl in *; try (injection H as <- <-); subst; simpl in *.

(** A step keeps [browser] in line with the point of suspension. *)
Lemma resume_consistent (f : bool) (s s' : session) (r : resumption)
    (calls : list call) :
  consistent s -> resume f s r = Some (Suspended s', calls) -> consistent s'.
Proof.
  unfold consistent. intros Hs H. destruct s as [u b p]. simpl in *.
  break_resume H; subst; try reflexivity; try congruence.
Qed.

Lemma resume_url (f : bool) (s s' : session) (r : resumption) (calls : list call) :
  resume f s r = Some (Suspended s', calls) -> url s' = url s.
Proof.
  intros H. destruct s as [u b p]. simpl in *.
  break_resume H; reflexivity.
Qed.


Lemma closes_app (l k : list call) : closes (l ++ k) = closes l + closes k.
Proof. apply count_app. Qed.

Lemma navigations_app (l k : list call) :
  navigations (l ++ k) = navigations l + navigations k.
Proof. apply count_app. Qed.



(** C6. A failure of one attempt (the navigation rejecting, the
    deadline passing before the navigation settles, or either
    [page.evaluate] rejecting) is logged as an error and leaves the
    session suspended on the retry delay, whatever the token says at that
    moment. When the delay has passed the loop reads the token again:
    unset, it navigates once more; set, it goes to close the browser with
    the cancellation error pending. *)
Theorem attempt_failures_are_retried :
  forall (s : session) (f : bool) (r : resumption) (m : string),
    consistent s ->
    attempt_failure PAGE_TIMEOUT (point s) r m ->
    resume f s r =
      Some (Suspended (suspend_at s AwaitRetry),
            [LogError ("Error during scraping attempt: " +:+ m);
             SetTimeout RETRY_DELAY]) /\
    resume false (suspend_at s AwaitRetry) TimerFired =
      Some (Suspended (suspend_at s AwaitGoto),
            [LogInfo ("Navigating to " +:+ url s); Goto (url s);
             SetTimeout PAGE_TIMEOUT]) /\
    resume true (suspend_at s AwaitRetry) TimerFired =
      Some (Suspended (suspend_at s (AwaitClose Cancelled)),
            [LogInfo "Scraping cancelled by user."; Close]).
Proof.
  intros s f r m Hs Hfail. destruct s as [u b pt]. unfold consistent in Hs.
  simpl in *. split; [|split].
  - inversion Hfail as [t m' Ht Hpt|t r' Ht Hpt|Hpt|m' Hpt|m' Hpt]; subst;
      unfold Session.resume; simpl; try reflexivity.
    + destruct (N.leb_spec t (setTimeout_delay PAGE_TIMEOUT)); [reflexivity | lia].
    + destruct (N.leb_spec t (setTimeout_delay PAGE_TIMEOUT)); [lia | reflexivity].
  - reflexivity.
  - unfold Session.resume, loop_head, finally, after. simpl.
    inversion Hfail; subst; reflexivity.
Qed.





(** The loop navigates only after reading the token unset. *)
Lemma resume_cancelled (s : session) (r : resumption) (p : progress)
    (calls : list call) :
  resume true s r = Some (p, calls) -> navigations calls = 0.
Proof.
  intros H. destruct s as [u b pt]. simpl in *.
  break_resume H; reflexivity.
Qed.

Lemma drive_snoc (inputs : list (bool * resumption)) :
  forall (s s' : session) (calls calls' : list call) (f : bool) (r : resumption)
         (p : progress),
    drive s inputs = Some (Suspended s', calls) ->
    resume f s' r = Some (p, calls') ->
    drive s (inputs ++ [(f, r)]) = Some (p, calls ++ calls').
Proof.
  induction inputs as [|[f0 r0] rest IH]; intros s s' calls calls' f r p Hd Hr.
  - injection Hd as <- <-. simpl. rewrite Hr.
    destruct p; rewrite ?app_nil_r; reflexivity.
  - simpl in Hd. simpl.
    destruct (resume f0 s r0) as [[[s0|c0] cs0]|]; [| |discriminate].
    + destruct (drive s0 rest) as [[p1 cs1]|] eqn:Hd1; [|discriminate].
      injection Hd as -> <-.
      rewrite (IH _ _ _ _ _ _ _ Hd1 Hr). rewrite app_assoc. reflexivity.
    + destruct rest; discriminate.
Qed.

Lemma scrape_snoc (u : string) (inputs : list (bool * resumption)) (s : session)
    (calls calls' : list call) (f : bool) (r : resumption) (p : progress) :
  scrapeUntilButtonFound u inputs = Some (Suspended s, calls) ->
  resume f s r = Some (p, calls') ->
  scrapeUntilButtonFound u (inputs ++ [(f, r)]) = Some (p, calls ++ calls').
Proof.
  unfold Session.scrapeUntilButtonFound. intros Hrun Hr.
  destruct (drive (start u).1 inputs) as [[p0 cs]|] eqn:Hd; [|discriminate].
  injection Hrun as -> <-.
  rewrite (drive_snoc _ _ _ _ _ _ _ _ Hd Hr). rewrite app_assoc. reflexivity.
Qed.

(** A session is suspended on the launch only before any settlement. *)
Lemma resume_past_launch (f : bool) (s s' : session) (r : resumption)
    (calls : list call) :
  resume f s r = Some (Suspended s', calls) -> point s' <> AwaitLaunch.
Proof.
  intros H. destruct s as [u b pt]. simpl in *.
  break_resume H; discriminate.
Qed.

Lemma drive_past_launch (inputs : list (bool * resumption)) :
  forall (s s' : session) (calls : list call),
    drive s inputs = Some (Suspended s', calls) ->
    point s' = AwaitLaunch ->
    inputs = [].
Proof.
  induction inputs as [|[f r] rest IH]; intros s s' calls Hd Hpt; [reflexivity|].
  exfalso. simpl in Hd.
  destruct (resume f s r) as [[[s2|c2] cs2]|] eqn:Hr; [| |discriminate].
  - destruct (drive s2 rest) as [[p3 cs3]|] eqn:Hd3; [|discriminate].
    injection Hd as -> <-.
    pose proof (IH _ _ _ Hd3 Hpt) as ->.
    injection Hd3 as -> <-.
    exact (resume_past_launch _ _ _ _ _ Hr Hpt).
  - destruct rest; discriminate.
Qed.

Lemma scrape_at_launch (u : string) (inputs : list (bool * resumption))
    (s : session) (calls : list call) :
  scrapeUntilButtonFound u inputs = Some (Suspended s, calls) ->
  point s = AwaitLaunch ->
  calls = [Launch].
Proof.
  unfold Session.scrapeUntilButtonFound. intros Hrun Hpt.
  destruct (drive (start u).1 inputs) as [[p cs]|] eqn:Hd; [|discriminate].
  injection Hrun as -> <-.
  pose proof (drive_past_launch _ _ _ _ Hd Hpt) as ->.
  injection Hd as _ <-. reflexivity.
Qed.

End SessionFacts.

(** ** The bot *)

Section BotFacts.

Import Deadline Dom Session Bot.

Variable RETRY_DELAY : N.
Variable PAGE_TIMEOUT : N.
Variable url_parses : string -> bool.

Local Abbreviation resume := (Session.resume RETRY_DELAY PAGE_TIMEOUT).
Local Abbreviation onScrape := (Bot.onScrape url_parses).
Local Abbreviation onSettle := (Bot.onSettle RETRY_DELAY PAGE_TIMEOUT).
Local Abbreviation step := (Bot.step RETRY_DELAY PAGE_TIMEOUT url_parses).
Local Abbreviation run_from := (Bot.run_from RETRY_DELAY PAGE_TIMEOUT url_parses).
Local Abbreviation run := (Bot.run RETRY_DELAY PAGE_TIMEOUT url_parses).

Lemma count_called (p : effect -> bool) (sid : nat) (calls : list call) :
  (forall c, p (Called sid c) = false) -> count p (Called sid <$> calls) = 0.
Proof.
  intros Hp. induction calls as [|c calls IH]; [reflexivity|].
  rewrite fmap_cons. cbn [count]. rewrite Hp. exact IH.
Qed.

Lemma ordered_app (tr new : list effect) :
  settled_before_deleted tr -> settled_before_deleted new ->
  settled_before_deleted (tr ++ new).
Proof.
  intros Htr Hnew i sid chat Hi.
  apply lookup_app_Some in Hi as [Hi|[Hlen Hi]].
  - destruct (Htr _ _ _ Hi) as (j & c & Hj & Hjc).
    exists j, c. split; [exact Hj|]. by apply lookup_app_l_Some.
  - destruct (Hnew _ _ _ Hi) as (j & c & Hj & Hjc).
    exists (length tr + j), c. split; [lia|].
    rewrite lookup_app_r by lia.
    replace (length tr + j - length tr) with j by lia. exact Hjc.
Qed.

Lemma ordered_no_delete (tr : list effect) :
  (forall e, e ∈ tr -> forall sid chat, e <> DeleteController sid chat) ->
  settled_before_deleted tr.
Proof.
  intros Hno i sid chat Hi. exfalso.
  eapply Hno; [|reflexivity]. eapply list_elem_of_lookup_2. exact Hi.
Qed.

Lemma ordered_called (sid : nat) (calls : list call) :
  settled_before_deleted (Called sid <$> calls).
Proof.
  apply ordered_no_delete. intros e He sid' chat ->.
  apply list_elem_of_fmap in He as (c & Hc & _). discriminate.
Qed.

Lemma ordered_conclude (sid : nat) (chat : Z) (c : completion) :
  settled_before_deleted (conclude sid chat c).
Proof.
  intros i sid' chat' Hi. exists 0, c.
  destruct c as [data|m]; simpl in *;
    repeat (destruct i as [|i]; simpl in Hi; try discriminate);
    injection Hi as <- <-; (split; [lia | reflexivity]).
Qed.

Lemma counts_conclude (sid sid' : nat) (chat : Z) (c : completion) :
  deletions_of sid' (conclude sid chat c) = (if Nat.eqb sid sid' then 1 else 0) /\
  settlements_of sid' (conclude sid chat c) = (if Nat.eqb sid sid' then 1 else 0) /\
  admissions_of sid' (conclude sid chat c) = 0 /\
  navigations_of sid' (conclude sid chat c) = 0.
Proof.
  unfold deletions_of, settlements_of, admissions_of, navigations_of.
  destruct c as [data|m]; simpl; destruct (Nat.eqb sid sid'); repeat split; reflexivity.
Qed.

Ltac counts :=
  unfold admissions_of, deletions_of, settlements_of, navigations_of in *;
  rewrite ?count_app;
  cbn [count is_admission_of is_delete_of is_settled_of is_goto_of
       request_line stopped_line].

Ltac decide_cases :=
  repeat case_decide; try lia; exfalso;
  repeat match goal with H : _ /\ _ |- _ => destruct H end;
  try congruence;
  match goal with
  | H : ~ (_ /\ _) |- _ => apply H; split; first [lia | congruence | assumption]
  end.

Lemma invariant_boot : invariant boot.
Proof.
  constructor; simpl.
  - intros chat sid. rewrite lookup_empty. split; [discriminate|].
    intros [s Hs]. rewrite lookup_empty in Hs. discriminate.
  - intros sid h Hs. rewrite lookup_empty in Hs. discriminate.
  - intros sid h Hs. rewrite lookup_empty in Hs. discriminate.
  - reflexivity.
  - reflexivity.
  - reflexivity.
  - intros i sid chat Hi. discriminate.
Qed.

Lemma invariant_emit (b : bot) (chat : Z) (message : string) :
  invariant b -> invariant (emit b [SendMessage chat message]).
Proof.
  intros [Hctl Halloc Hcons Hadm Hdel Hsett Hord]. constructor; simpl; try assumption.
  - intros sid. counts. rewrite <- Hadm. counts. lia.
  - intros sid. counts. rewrite <- Hdel. counts. lia.
  - intros sid. counts. specialize (Hsett sid). counts. lia.
  - apply ordered_app; [exact Hord|].
    apply ordered_no_delete. intros e He sid chat' ->.
    apply list_elem_of_singleton in He. discriminate.
Qed.

Lemma invariant_onScrape (b : bot) (chat : Z) (u : string) :
  invariant b -> invariant (onScrape b chat u).
Proof.
  intros Hb. unfold Bot.onScrape.
  destruct (url_parses u); simpl; [|apply invariant_emit, Hb].
  destruct (scrapingControllers b !! chat) as [sid0|] eqn:Hfree;
    [apply invariant_emit, Hb|].
  destruct Hb as [Hctl Halloc Hcons Hadm Hdel Hsett Hord].
  assert (running b !! length (tokens b) = None) as Hfresh.
  { destruct (running b !! length (tokens b)) as [h|] eqn:Hh; [|reflexivity].
    apply Halloc in Hh. lia. }
  constructor; simpl.
  - intros chat' sid'.
    destruct (decide (chat' = chat)) as [->|Hchat];
      destruct (decide (sid' = length (tokens b))) as [->|Hsid].
    + rewrite !lookup_insert_eq. split; [eauto | reflexivity].
    + rewrite lookup_insert_eq, lookup_insert_ne by congruence.
      split; [congruence|]. intros Hs. apply Hctl in Hs. congruence.
    + rewrite lookup_insert_ne, lookup_insert_eq by congruence.
      split.
      * intros Hs. apply Hctl in Hs as [s Hs]. congruence.
      * intros [s Hs]. congruence.
    + rewrite !lookup_insert_ne by congruence. apply Hctl.
  - intros sid h. rewrite length_app. simpl.
    destruct (decide (sid = length (tokens b))) as [->|Hsid]; [lia|].
    rewrite lookup_insert_ne by congruence. intros Hs. apply Halloc in Hs. lia.
  - intros sid h.
    destruct (decide (sid = length (tokens b))) as [->|Hsid].
    + rewrite lookup_insert_eq. intros [= <-]. reflexivity.
    + rewrite lookup_insert_ne by congruence. apply Hcons.
  - intros sid. counts. rewrite Hadm, length_app. simpl.
    destruct (Nat.eqb_spec (length (tokens b)) sid); repeat case_decide; lia.
  - intros sid. counts. rewrite Hdel, length_app. simpl.
    destruct (decide (sid = length (tokens b))) as [->|Hsid].
    + rewrite lookup_insert_eq. decide_cases.
    + rewrite lookup_insert_ne by congruence.
      decide_cases.
  - intros sid. counts. specialize (Hsett sid). counts. lia.
  - apply ordered_app; [exact Hord|].
    apply ordered_no_delete. intros e He sid chat' ->.
    repeat (apply elem_of_cons in He as [He|He]; [discriminate|]).
    inversion He.
Qed.

Lemma invariant_onStop (b : bot) (chat : Z) :
  invariant b -> invariant (onStop b chat).
Proof.
  intros Hb. unfold onStop.
  destruct (scrapingControllers b !! chat) as [addr|]; [|apply invariant_emit, Hb].
  destruct Hb as [Hctl Halloc Hcons Hadm Hdel Hsett Hord].
  constructor; simpl; rewrite ?length_insert; try assumption.
  - intros sid. counts. rewrite <- Hadm. counts. lia.
  - intros sid. counts. rewrite <- Hdel. counts. lia.
  - intros sid. counts. specialize (Hsett sid). counts. lia.
  - apply ordered_app; [exact Hord|].
    apply ordered_no_delete. intros e He sid chat' ->.
    repeat (apply elem_of_cons in He as [He|He]; [discriminate|]).
    inversion He.
Qed.

Lemma invariant_onSettle (b : bot) (sid : nat) (r : resumption) :
  invariant b -> invariant (onSettle b sid r).
Proof.
  intros Hb. unfold Bot.onSettle.
  destruct (running b !! sid) as [h|] eqn:Hh; [|exact Hb].
  destruct (resume (cancelled b sid) (body h) r) as [[[s'|c] calls]|] eqn:Hr;
    [| |exact Hb];
    destruct Hb as [Hctl Halloc Hcons Hadm Hdel Hsett Hord];
    destruct h as [chat s]; simpl in *;
    pose proof (proj2 (Hctl chat sid) (ex_intro _ s Hh)) as Hmine;
    constructor; simpl.
  - intros chat' sid'. destruct (decide (sid' = sid)) as [->|Hsid].
    + rewrite lookup_insert_eq. rewrite Hctl, Hh.
      split; intros [s0 Hs0]; injection Hs0 as <-; eauto.
    + rewrite lookup_insert_ne by congruence. apply Hctl.
  - intros sid' h'. destruct (decide (sid' = sid)) as [->|Hsid].
    + intros _. eapply Halloc, Hh.
    + rewrite lookup_insert_ne by congruence. apply Halloc.
  - intros sid' h'. destruct (decide (sid' = sid)) as [->|Hsid].
    + rewrite lookup_insert_eq. intros [= <-]. simpl.
      eapply resume_consistent; [exact (Hcons _ _ Hh) | exact Hr].
    + rewrite lookup_insert_ne by congruence. apply Hcons.
  - intros sid'. counts. rewrite count_called by reflexivity. rewrite Hadm. lia.
  - intros sid'. counts. rewrite count_called by reflexivity. rewrite Hdel.
    destruct (decide (sid' = sid)) as [->|Hsid].
    + rewrite lookup_insert_eq. decide_cases.
    + rewrite lookup_insert_ne by congruence. lia.
  - intros sid'. counts. rewrite !count_called by reflexivity.
    specialize (Hsett sid'). counts. lia.
  - apply ordered_app; [exact Hord | apply ordered_called].
  - intros chat' sid'. destruct (decide (chat' = chat)) as [->|Hchat].
    + rewrite lookup_delete_eq. split; [discriminate|].
      intros [s0 Hs0]. destruct (decide (sid' = sid)) as [->|Hsid].
      * rewrite lookup_delete_eq in Hs0. discriminate.
      * rewrite lookup_delete_ne in Hs0 by congruence.
        pose proof (proj2 (Hctl chat sid') (ex_intro _ s0 Hs0)). congruence.
    + rewrite lookup_delete_ne by congruence.
      destruct (decide (sid' = sid)) as [->|Hsid].
      * rewrite lookup_delete_eq. split.
        -- intros Hs0. apply Hctl in Hs0 as [s0 Hs0]. congruence.
        -- intros [s0 Hs0]. discriminate.
      * rewrite lookup_delete_ne by congruence. apply Hctl.
  - intros sid' h'. destruct (decide (sid' = sid)) as [->|Hsid].
    + rewrite lookup_delete_eq. discriminate.
    + rewrite lookup_delete_ne by congruence. apply Halloc.
  - intros sid' h'. destruct (decide (sid' = sid)) as [->|Hsid].
    + rewrite lookup_delete_eq. discriminate.
    + rewrite lookup_delete_ne by congruence. apply Hcons.
  - intros sid'. counts. rewrite count_called by reflexivity.
    destruct (counts_conclude sid sid' chat c) as (_ & _ & Hnone & _).
    unfold admissions_of in Hnone. rewrite Hnone, Hadm. lia.
  - intros sid'. counts. rewrite count_called by reflexivity.
    destruct (counts_conclude sid sid' chat c) as (Hone & _).
    unfold deletions_of in Hone. rewrite Hone, Hdel.
    pose proof (Halloc _ _ Hh).
    destruct (decide (sid' = sid)) as [->|Hsid].
    + rewrite lookup_delete_eq, Nat.eqb_refl. decide_cases.
    + rewrite lookup_delete_ne by congruence.
      destruct (Nat.eqb_spec sid sid'); [congruence | lia].
  - intros sid'. counts. rewrite !count_called by reflexivity.
    destruct (counts_conclude sid sid' chat c) as (Hone & Htwo & _).
    unfold deletions_of, settlements_of in Hone, Htwo.
    rewrite Hone, Htwo. specialize (Hsett sid'). counts. lia.
  - apply ordered_app; [exact Hord|].
    apply ordered_app; [apply ordered_called | apply ordered_conclude].
Qed.

Lemma invariant_step (b : bot) (u : update) : invariant b -> invariant (step b u).
Proof.
  intros Hb. destruct u as [chat|chat u|chat|sid r]; simpl.
  - apply invariant_emit, Hb.
  - apply invariant_onScrape, Hb.
  - apply invariant_onStop, Hb.
  - apply invariant_onSettle, Hb.
Qed.

Lemma invariant_run_from (us : list update) :
  forall b, invariant b -> invariant (run_from b us).
Proof.
  induction us as [|u us IH]; intros b Hb; [exact Hb|].
  apply IH, invariant_step, Hb.
Qed.

Lemma invariant_run (us : list update) : invariant (run us).
Proof. apply invariant_run_from, invariant_boot. Qed.

Lemma run_from_app (b : bot) (us vs : list update) :
  run_from b (us ++ vs) = run_from (run_from b us) vs.
Proof. apply fold_left_app. Qed.

Lemma calls_of_app (sid : nat) (l k : list effect) :
  calls_of sid (l ++ k) = calls_of sid l ++ calls_of sid k.
Proof.
  induction l as [|e l IH]; [reflexivity|].
  simpl. destruct (called_by sid e); rewrite IH; reflexivity.
Qed.

Lemma calls_of_called (sid sid' : nat) (calls : list call) :
  calls_of sid (Called sid' <$> calls) = if Nat.eqb sid' sid then calls else [].
Proof.
  induction calls as [|c calls IH]; [destruct (Nat.eqb sid' sid); reflexivity|].
  rewrite fmap_cons. cbn [calls_of called_by]. rewrite IH.
  destruct (Nat.eqb sid' sid); reflexivity.
Qed.

Lemma calls_of_conclude (sid sid' : nat) (chat : Z) (c : completion) :
  calls_of sid' (conclude sid chat c) = if Nat.eqb sid sid' then handler_log c else [].
Proof.
  destruct c; simpl; destruct (Nat.eqb sid sid'); reflexivity.
Qed.

Lemma count_elem_of {A : Type} (p : A -> bool) (l : list A) (x : A) :
  x ∈ l -> p x = true -> 1 <= count p l.
Proof.
  induction l as [|y l IH]; intros Hx Hp; [inversion Hx|].
  apply elem_of_cons in Hx as [<-|Hx]; simpl.
  - rewrite Hp. lia.
  - specialize (IH Hx Hp). lia.
Qed.

(** A handler whose session has settled is gone for good. *)
Lemma settled_gone (b : bot) (sid : nat) (c : completion) :
  invariant b -> Settled sid c ∈ trace b ->
  sid < length (tokens b) /\ running b !! sid = None.
Proof.
  intros [_ _ _ _ Hdel Hsett _] Hin.
  pose proof (count_elem_of (is_settled_of sid) _ _ Hin) as Hone.
  simpl in Hone. rewrite Nat.eqb_refl in Hone. specialize (Hone eq_refl).
  fold (settlements_of sid (trace b)) in Hone. rewrite Hsett, Hdel in Hone.
  case_decide as Hc; [exact Hc | lia].
Qed.

Lemma chronicle_boot : chronicle RETRY_DELAY PAGE_TIMEOUT boot.
Proof.
  constructor; simpl.
  - reflexivity.
  - intros sid h Hs. rewrite lookup_empty in Hs. discriminate.
  - intros sid c Hin. inversion Hin.
Qed.

(** Effects that are neither calls nor settlements leave the chronicle
    as it is. *)
Lemma chronicle_quiet (b : bot) (toks : list bool) (es : list effect) :
  length toks = length (tokens b) ->
  (forall sid, calls_of sid es = []) ->
  (forall sid c, Settled sid c ∉ es) ->
  chronicle RETRY_DELAY PAGE_TIMEOUT b ->
  chronicle RETRY_DELAY PAGE_TIMEOUT
    {| tokens := toks; scrapingControllers := scrapingControllers b;
       running := running b; trace := trace b ++ es |}.
Proof.
  intros Hlen Hcalls Hsettled [Hfresh Hrun Hdone]. constructor; simpl.
  - intros sid Hsid. rewrite calls_of_app, Hcalls, app_nil_r.
    apply Hfresh. lia.
  - intros sid h Hh. rewrite calls_of_app, Hcalls, app_nil_r. apply Hrun, Hh.
  - intros sid c Hin. rewrite calls_of_app, Hcalls, app_nil_r.
    apply Hdone. apply elem_of_app in Hin as [Hin|Hin]; [exact Hin|].
    exfalso. exact (Hsettled _ _ Hin).
Qed.

Lemma chronicle_emit (b : bot) (chat : Z) (message : string) :
  chronicle RETRY_DELAY PAGE_TIMEOUT b ->
  chronicle RETRY_DELAY PAGE_TIMEOUT (emit b [SendMessage chat message]).
Proof.
  intros Hb. apply (chronicle_quiet b (tokens b)); try done.
  intros sid c Hin. apply list_elem_of_singleton in Hin. discriminate.
Qed.

Lemma chronicle_onScrape (b : bot) (chat : Z) (u : string) :
  invariant b ->
  chronicle RETRY_DELAY PAGE_TIMEOUT b ->
  chronicle RETRY_DELAY PAGE_TIMEOUT (onScrape b chat u).
Proof.
  intros Hinv Hb. unfold Bot.onScrape.
  destruct (url_parses u); simpl; [|apply chronicle_emit, Hb].
  destruct (scrapingControllers b !! chat); [apply chronicle_emit, Hb|].
  destruct Hb as [Hfresh Hrun Hdone].
  assert (forall sid,
             calls_of sid
               ([NewToken (length (tokens b)); SetController chat (length (tokens b));
                 Called (length (tokens b)) (request_line u)] ++
                (Called (length (tokens b)) <$> (start u).2)) =
             if Nat.eqb (length (tokens b)) sid then [request_line u; Launch] else [])
    as Hnew.
  { intros sid. simpl. destruct (Nat.eqb (length (tokens b)) sid); reflexivity. }
  constructor; cbn [tokens running trace].
  - intros sid. rewrite length_app. simpl. intros Hsid.
    rewrite calls_of_app, Hnew, Hfresh by lia.
    destruct (Nat.eqb_spec (length (tokens b)) sid); [lia | reflexivity].
  - intros sid h. rewrite calls_of_app, Hnew.
    destruct (Nat.eqb_spec (length (tokens b)) sid) as [<-|Hsid].
    + rewrite lookup_insert_eq. intros [= <-]. simpl.
      exists [], [Launch]. split; [reflexivity|].
      rewrite Hfresh by lia. reflexivity.
    + rewrite lookup_insert_ne by congruence. rewrite app_nil_r. apply Hrun.
  - intros sid c Hin. rewrite calls_of_app, Hnew.
    apply elem_of_app in Hin as [Hin|Hin].
    + destruct (settled_gone _ _ _ Hinv Hin) as [Hsid _].
      destruct (Nat.eqb_spec (length (tokens b)) sid); [lia|].
      rewrite app_nil_r. apply Hdone, Hin.
    + exfalso. simpl in Hin.
      repeat (apply elem_of_cons in Hin as [Hin|Hin]; [discriminate|]).
      inversion Hin.
Qed.

Lemma chronicle_onStop (b : bot) (chat : Z) :
  chronicle RETRY_DELAY PAGE_TIMEOUT b ->
  chronicle RETRY_DELAY PAGE_TIMEOUT (onStop b chat).
Proof.
  intros Hb. unfold onStop.
  destruct (scrapingControllers b !! chat) as [addr|]; [|apply chronicle_emit, Hb].
  apply (chronicle_quiet b); try done.
  - apply length_insert.
  - intros sid c Hin.
    repeat (apply elem_of_cons in Hin as [Hin|Hin]; [discriminate|]).
    inversion Hin.
Qed.

Lemma chronicle_onSettle (b : bot) (sid : nat) (r : resumption) :
  invariant b ->
  chronicle RETRY_DELAY PAGE_TIMEOUT b ->
  chronicle RETRY_DELAY PAGE_TIMEOUT (onSettle b sid r).
Proof.
  intros Hinv Hb. unfold Bot.onSettle.
  destruct (running b !! sid) as [h|] eqn:Hh; [|exact Hb].
  destruct (resume (cancelled b sid) (body h) r) as [[[s'|c] calls]|] eqn:Hr;
    [| |exact Hb];
    destruct Hb as [Hfresh Hrun Hdone];
    pose proof (inv_allocated _ Hinv _ _ Hh) as Halloc;
    destruct (Hrun _ _ Hh) as (inputs & calls0 & Hrun0 & Hcalls0);
    constructor; cbn [tokens running trace].
  - intros sid' Hsid'. rewrite calls_of_app, calls_of_called, Hfresh by lia.
    destruct (Nat.eqb_spec sid sid'); [lia | reflexivity].
  - intros sid' h'. rewrite calls_of_app, calls_of_called.
    destruct (Nat.eqb_spec sid sid') as [<-|Hsid].
    + rewrite lookup_insert_eq. intros [= <-]. cbn [body].
      rewrite (resume_url _ _ _ _ _ _ _ Hr).
      exists (inputs ++ [(cancelled b sid, r)]), (calls0 ++ calls).
      split; [exact (scrape_snoc _ _ _ _ _ _ _ _ _ _ Hrun0 Hr)|].
      rewrite Hcalls0. reflexivity.
    + rewrite lookup_insert_ne by congruence. rewrite app_nil_r. apply Hrun.
  - intros sid' c Hin. rewrite calls_of_app, calls_of_called.
    apply elem_of_app in Hin as [Hin|Hin].
    + destruct (settled_gone _ _ _ Hinv Hin) as [_ Hgone].
      destruct (Nat.eqb_spec sid sid'); [congruence|].
      rewrite app_nil_r. apply Hdone, Hin.
    + exfalso. apply list_elem_of_fmap in Hin as (c' & Hc' & _). discriminate.
  - intros sid' Hsid'.
    rewrite !calls_of_app, calls_of_called, calls_of_conclude, Hfresh by lia.
    destruct (Nat.eqb_spec sid sid'); [lia | reflexivity].
  - intros sid' h'.
    rewrite !calls_of_app, calls_of_called, calls_of_conclude.
    destruct (Nat.eqb_spec sid sid') as [<-|Hsid].
    + rewrite lookup_delete_eq. discriminate.
    + rewrite lookup_delete_ne by congruence. rewrite app_nil_r. apply Hrun.
  - intros sid' c' Hin.
    rewrite !calls_of_app, calls_of_called, calls_of_conclude.
    apply elem_of_app in Hin as [Hin|Hin].
    + destruct (settled_gone _ _ _ Hinv Hin) as [_ Hgone].
      destruct (Nat.eqb_spec sid sid'); [congruence|].
      rewrite app_nil_r. apply Hdone, Hin.
    + apply elem_of_app in Hin as [Hin|Hin].
      { exfalso. apply list_elem_of_fmap in Hin as (c0 & Hc0 & _). discriminate. }
      assert (sid' = sid /\ c' = c) as [-> ->].
      { destruct c; simpl in Hin;
          repeat (apply elem_of_cons in Hin as [Hin|Hin];
                  [try discriminate; injection Hin as -> ->; split; reflexivity|]);
          inversion Hin. }
      rewrite Nat.eqb_refl.
      exists (url (body h)), (inputs ++ [(cancelled b sid, r)]), (calls0 ++ calls).
      split; [exact (scrape_snoc _ _ _ _ _ _ _ _ _ _ Hrun0 Hr)|].
      rewrite Hcalls0. simpl. rewrite <- app_assoc. reflexivity.
Qed.

Lemma chronicle_step (b : bot) (u : update) :
  invariant b ->
  chronicle RETRY_DELAY PAGE_TIMEOUT b ->
  chronicle RETRY_DELAY PAGE_TIMEOUT (step b u).
Proof.
  intros Hinv Hb. destruct u as [chat|chat u|chat|sid r]; simpl.
  - apply chronicle_emit, Hb.
  - apply chronicle_onScrape; assumption.
  - apply chronicle_onStop, Hb.
  - apply chronicle_onSettle; assumption.
Qed.

Lemma chronicle_run_from (us : list update) :
  forall b,
    invariant b ->
    chronicle RETRY_DELAY PAGE_TIMEOUT b ->
    chronicle RETRY_DELAY PAGE_TIMEOUT (run_from b us).
Proof.
  induction us as [|u us IH]; intros b Hinv Hb; [exact Hb|].
  apply IH; [apply invariant_step, Hinv | apply chronicle_step; assumption].
Qed.

(** Every session of the bot is a run of [scrapeUntilButtonFound]. *)
Lemma chronicle_run (us : list update) :
  chronicle RETRY_DELAY PAGE_TIMEOUT (run us).
Proof. apply chronicle_run_from; [apply invariant_boot | apply chronicle_boot]. Qed.

(** C1. After any updates, and for every handler invocation [sid]: the
    controller is removed as many times as the session has settled,
    whatever it settled with, which is at most once and never without an
    admission; once the handler is gone that is exactly once, and the
    registry no longer holds its token; while it is suspended that is
    not at all. Every removal comes after the settlement. The step at
    which the session completes, with any completion, ends with the
    removal and leaves no entry for the conversation. *)
Theorem controller_removed_exactly_once :
  forall (us : list update) (sid : nat),
    deletions_of sid (trace (run us)) = settlements_of sid (trace (run us)) /\
    deletions_of sid (trace (run us)) <= admissions_of sid (trace (run us)) <= 1 /\
    (admissions_of sid (trace (run us)) = 1 ->
     running (run us) !! sid = None ->
     deletions_of sid (trace (run us)) = 1 /\
     forall chat, scrapingControllers (run us) !! chat <> Some sid) /\
    (is_Some (running (run us) !! sid) ->
     deletions_of sid (trace (run us)) = 0) /\
    settled_before_deleted (trace (run us)) /\
    (forall h r c calls,
       running (run us) !! sid = Some h ->
       resume (cancelled (run us) sid) (body h) r = Some (Finished c, calls) ->
       trace (step (run us) (Settle sid r)) =
         trace (run us) ++ (Called sid <$> calls) ++ conclude sid (chatId h) c /\
       last (conclude sid (chatId h) c) = Some (DeleteController sid (chatId h)) /\
       deletions_of sid (conclude sid (chatId h) c) = 1 /\
       scrapingControllers (step (run us) (Settle sid r)) !! chatId h = None /\
       running (step (run us) (Settle sid r)) !! sid = None).
Proof.
  intros us sid.
  destruct (invariant_run us) as [Hctl Halloc Hcons Hadm Hdel Hsett Hord].
  split; [symmetry; apply Hsett|].
  split; [rewrite Hadm, Hdel; repeat case_decide; try lia; exfalso;
          match goal with H : _ /\ _ |- _ => destruct H end; lia|].
  split; [|split; [|split; [exact Hord|]]].
  - intros Hin Hgone. rewrite Hadm in Hin. rewrite Hdel. split.
    + repeat case_decide; try lia; try discriminate. decide_cases.
    + intros chat Hchat. apply Hctl in Hchat as [s Hs]. congruence.
  - intros [h Hh]. rewrite Hdel. case_decide as Hc; [|reflexivity].
    destruct Hc. congruence.
  - intros h r c calls Hh Hr. simpl. unfold Bot.onSettle. rewrite Hh, Hr. simpl.
    rewrite lookup_delete_eq, lookup_delete_eq.
    destruct (counts_conclude sid sid (chatId h) c) as (Hone & _).
    rewrite Nat.eqb_refl in Hone.
    repeat split; try assumption.
    destruct c; reflexivity.
Qed.

(** C2, amended. While a session is active for a conversation, a second
    [/scrape] from it changes nothing but the trace, to which it adds one
    message: that a process is already running when the URL parses, that
    the URL is invalid when it does not. No token is created, and the
    controllers and the suspended handlers are as they were. *)
Theorem second_scrape_is_rejected :
  forall (us : list update) (chat : Z) (u : string),
    active (run us) chat ->
    trace (step (run us) (OnScrape chat u)) =
      trace (run us) ++
      [SendMessage chat (if url_parses u then ALREADY_RUNNING
                         else "Invalid URL provided.")] /\
    tokens (step (run us) (OnScrape chat u)) = tokens (run us) /\
    scrapingControllers (step (run us) (OnScrape chat u)) =
      scrapingControllers (run us) /\
    running (step (run us) (OnScrape chat u)) = running (run us).
Proof.
  intros us chat u (sid & h & Hh & Hchat).
  destruct (invariant_run us) as [Hctl _ _ _ _ _ _].
  destruct h as [chat' s]. simpl in Hchat. subst chat'.
  pose proof (proj2 (Hctl chat sid) (ex_intro _ s Hh)) as Hmine.
  simpl. unfold Bot.onScrape. destruct (url_parses u); simpl.
  - rewrite Hmine. repeat split.
  - repeat split.
Qed.

Lemma navigations_called (sid sid' : nat) (calls : list call) :
  navigations_of sid (Called sid' <$> calls) =
  if Nat.eqb sid' sid then navigations calls else 0.
Proof.
  unfold navigations_of, navigations.
  induction calls as [|c calls IH]; [destruct (Nat.eqb sid' sid); reflexivity|].
  rewrite fmap_cons. cbn [count is_goto_of]. rewrite IH.
  destruct c; destruct (Nat.eqb sid' sid); reflexivity.
Qed.

Lemma step_cancelled (b : bot) (u : update) (sid : nat) :
  tokens b !! sid = Some true ->
  tokens (step b u) !! sid = Some true /\
  navigations_of sid (trace (step b u)) = navigations_of sid (trace b).
Proof.
  intros Hset.
  assert (forall chat message,
             tokens (emit b [SendMessage chat message]) !! sid = Some true /\
             navigations_of sid (trace (emit b [SendMessage chat message])) =
             navigations_of sid (trace b)) as Hemit.
  { intros chat message. simpl. split; [exact Hset|]. counts. lia. }
  destruct u as [chat|chat u|chat|sid' r]; simpl.
  - apply Hemit.
  - unfold Bot.onScrape. destruct (url_parses u); simpl; [|apply Hemit].
    destruct (scrapingControllers b !! chat); [apply Hemit|]. simpl.
    split; [by apply lookup_app_l_Some|]. counts. lia.
  - unfold onStop. destruct (scrapingControllers b !! chat) as [addr|];
      [|apply Hemit]. simpl.
    split; [|counts; lia].
    destruct (decide (addr = sid)) as [->|Haddr].
    + apply list_lookup_insert_eq. eapply lookup_lt_Some, Hset.
    + rewrite list_lookup_insert_ne by exact Haddr. exact Hset.
  - unfold Bot.onSettle.
    destruct (running b !! sid') as [h|]; [|split; [exact Hset | reflexivity]].
    destruct (resume (cancelled b sid') (body h) r) as [[[s'|c] calls]|] eqn:Hr;
      [| |split; [exact Hset | reflexivity]]; simpl;
      (split; [exact Hset|]); counts; fold (navigations_of sid (trace b));
      fold (navigations_of sid (Called sid' <$> calls));
      rewrite navigations_called;
      destruct (Nat.eqb_spec sid' sid) as [->|Hsid];
      try (unfold cancelled in Hr; rewrite Hset in Hr; simpl in Hr;
           rewrite (resume_cancelled _ _ _ _ _ _ Hr)).
    + lia.
    + lia.
    + destruct (counts_conclude sid sid (chatId h) c) as (_ & _ & _ & Hnone).
      unfold navigations_of in Hnone. rewrite Hnone. lia.
    + destruct (counts_conclude sid' sid (chatId h) c) as (_ & _ & _ & Hnone).
      unfold navigations_of in Hnone. rewrite Hnone. lia.
Qed.

Lemma run_from_cancelled (vs : list update) (sid : nat) :
  forall b,
    tokens b !! sid = Some true ->
    tokens (run_from b vs) !! sid = Some true /\
    navigations_of sid (trace (run_from b vs)) = navigations_of sid (trace b).
Proof.
  induction vs as [|v vs IH]; intros b Hset; [split; [exact Hset | reflexivity]|].
  destruct (step_cancelled b v sid Hset) as [Hset' Hnav].
  destruct (IH _ Hset') as [Hset'' Hnav'].
  split; [exact Hset''|]. simpl. rewrite Hnav'. exact Hnav.
Qed.

(** C4. A rejected launch completes the session at once with the
    launch error: the function has made no call but the launch, so no
    navigation, no retry delay and no close. In the bot, the handler
    suspended on a launch reports that error to the operator and removes
    the controller in the same step; all that this handler invocation
    ever called is the logger, twice, and the launch. *)
Theorem launch_failure_is_fatal :
  forall (u : string) (f : bool) (reason : string),
    scrapeUntilButtonFound RETRY_DELAY PAGE_TIMEOUT u
      [(f, Launched (Rejected reason))] =
    Some (Finished (Failed reason), [Launch]) /\
    forall (us : list update) (sid : nat) (h : handler),
      running (run us) !! sid = Some h ->
      point (body h) = AwaitLaunch ->
      step (run us) (Settle sid (Launched (Rejected reason))) =
      {| tokens := tokens (run us);
         scrapingControllers := delete (chatId h) (scrapingControllers (run us));
         running := delete sid (running (run us));
         trace := trace (run us) ++
           [Settled sid (Failed reason);
            Called sid stopped_line;
            SendMessage (chatId h) ("Scraping stopped: " +:+ reason);
            ConsoleLog sid reason;
            DeleteController sid (chatId h)] |} /\
      calls_of sid (trace (step (run us) (Settle sid (Launched (Rejected reason))))) =
      [request_line (url (body h)); Launch; stopped_line].
Proof.
  intros u f reason. split; [reflexivity|].
  intros us sid h Hh Hpt.
  destruct (invariant_run us) as [_ _ Hcons _ _ _ _].
  destruct (chronicle_run us) as [_ Hrun _].
  pose proof (Hcons _ _ Hh) as Hwf. unfold consistent in Hwf.
  destruct (Hrun _ _ Hh) as (inputs & calls & Hscrape & Hcalls).
  pose proof (scrape_at_launch _ _ _ _ _ _ Hscrape Hpt) as ->.
  destruct h as [chat [u' b pt]]. simpl in *. subst pt b.
  assert (onSettle (run us) sid (Launched (Rejected reason)) =
          {| tokens := tokens (run us);
             scrapingControllers := delete chat (scrapingControllers (run us));
             running := delete sid (running (run us));
             trace := trace (run us) ++
               [Settled sid (Failed reason);
                Called sid stopped_line;
                SendMessage chat ("Scraping stopped: " +:+ reason);
                ConsoleLog sid reason;
                DeleteController sid chat] |}) as Hstep.
  { unfold Bot.onSettle. rewrite Hh. reflexivity. }
  rewrite Hstep. split; [reflexivity|].
  cbn [trace]. rewrite calls_of_app, Hcalls. simpl.
  rewrite Nat.eqb_refl. reflexivity.
Qed.


End BotFacts.

(** ** Instances

    The defaults of the source: a retry delay of 5000 ms and a page
    timeout of 30000 ms. *)

Section Instances.

Import Deadline Dom Session Bot.

Local Abbreviation run := (Bot.run 5000 30000 Url.has_scheme).
Local Abbreviation step := (Bot.step 5000 30000 Url.has_scheme).

(** C2, as stated, fails for a second [/scrape] whose argument is not a
    URL: the URL is checked before the controllers are looked at, so the
    operator is told that the URL is invalid, not that a process is
    already running. *)
Lemma second_scrape_with_malformed_url :
  active (run [OnScrape 7 "https://shop.example/item"]) 7 /\
  Url.has_scheme "shop.example/item" = false /\
  trace (step (run [OnScrape 7 "https://shop.example/item"])
              (OnScrape 7 "shop.example/item")) =
    trace (run [OnScrape 7 "https://shop.example/item"]) ++
    [SendMessage 7 "Invalid URL provided."] /\
  ~ (forall us chat u,
       active (run us) chat ->
       trace (step (run us) (OnScrape chat u)) =
       trace (run us) ++ [SendMessage chat ALREADY_RUNNING]).
Proof.
  assert (active (run [OnScrape 7 "https://shop.example/item"]) 7) as Hactive.
  { exists 0, {| chatId := 7; body := (start "https://shop.example/item").1 |}.
    split; reflexivity. }
  split; [exact Hactive|]. split; [reflexivity|]. split; [reflexivity|].
  intros Hclaim.
  specialize (Hclaim _ _ "shop.example/item" Hactive).
  apply app_inv_head in Hclaim. discriminate.
Qed.

Lemma second_scrape_is_rejected_witness :
  trace (step (run [OnScrape 7 "https://shop.example/item"])
              (OnScrape 7 "https://shop.example/other")) =
    trace (run [OnScrape 7 "https://shop.example/item"]) ++
    [SendMessage 7 (if Url.has_scheme "https://shop.example/other"
                    then ALREADY_RUNNING else "Invalid URL provided.")] /\
  tokens (step (run [OnScrape 7 "https://shop.example/item"])
               (OnScrape 7 "https://shop.example/other")) =
    tokens (run [OnScrape 7 "https://shop.example/item"]) /\
  scrapingControllers (step (run [OnScrape 7 "https://shop.example/item"])
                            (OnScrape 7 "https://shop.example/other")) =
    scrapingControllers (run [OnScrape 7 "https://shop.example/item"]) /\
  running (step (run [OnScrape 7 "https://shop.example/item"])
                (OnScrape 7 "https://shop.example/other")) =
    running (run [OnScrape 7 "https://shop.example/item"]).
Proof.
  apply (second_scrape_is_rejected 5000 30000 Url.has_scheme
           [OnScrape 7 "https://shop.example/item"] 7 "https://shop.example/other").
  exists 0, {| chatId := 7; body := (start "https://shop.example/item").1 |}.
  split; reflexivity.
Defined.

Lemma attempt_failures_are_retried_witness :
  resume 5000 30000 false
    {| url := "https://shop.example/item"; browser := true; point := AwaitGoto |}
    (Navigated NeverSettles) =
  Some (Suspended {| url := "https://shop.example/item"; browser := true;
                     point := AwaitRetry |},
        [LogError "Error during scraping attempt: Page navigation timed out";
         SetTimeout 5000]).
Proof.
  apply (attempt_failures_are_retried 5000 30000
           {| url := "https://shop.example/item"; browser := true;
              point := AwaitGoto |}
           false (Navigated NeverSettles) "Page navigation timed out").
  - reflexivity.
  - apply goto_hangs.
Defined.




Lemma controller_removed_exactly_once_witness :
  deletions_of 0
    (trace (run [OnScrape 7 "https://shop.example/item";
                 Settle 0 (Launched (Rejected "spawn ENOENT"))])) = 1.
Proof.
  destruct (controller_removed_exactly_once 5000 30000 Url.has_scheme
              [OnScrape 7 "https://shop.example/item";
               Settle 0 (Launched (Rejected "spawn ENOENT"))] 0)
    as (_ & _ & Hgone & _).
  apply Hgone; reflexivity.
Defined.

Lemma launch_failure_is_fatal_witness :
  calls_of 0
    (trace (step (run [OnScrape 7 "https://shop.example/item"])
                 (Settle 0 (Launched (Rejected "spawn ENOENT"))))) =
  [request_line "https://shop.example/item"; Launch; stopped_line].
Proof.
  destruct (launch_failure_is_fatal 5000 30000 Url.has_scheme
              "https://shop.example/item" false "spawn ENOENT") as [_ Hbot].
  apply (Hbot [OnScrape 7 "https://shop.example/item"] 0
           {| chatId := 7; body := (start "https://shop.example/item").1 |});
    reflexivity.
Defined.


(** The token is read only at the top of the loop. A [/stop] that
    arrives while an attempt is in flight does not interrupt it: here the
    evaluation of that attempt finds the button, and the session settles
    with the snapshot although its token is set. *)
Remark stop_during_a_successful_attempt :
  let us := [OnScrape 7 "https://shop.example/item";
             Settle 0 (Launched (Fulfilled tt));
             Settle 0 (PageOpened (Fulfilled tt));
             Settle 0 (UserAgentSet (Fulfilled tt));
             Settle 0 (Navigated (SettlesAt 400 (Fulfilled tt)));
             Settle 0 TimerFired;
             Settle 0 (Scrolled (Fulfilled tt));
             Settle 0 TimerFired;
             OnStop 7;
             Settle 0 (Evaluated (Fulfilled shown_button));
             Settle 0 (Closed (Fulfilled tt))] in
  tokens (run us) = [true] /\
  drop 13 (trace (run us)) =
  [SetCancelled 0;
   SendMessage 7 "Scraping has been stopped.";
   Called 0 (LogInfo "Button found.");
   Called 0 Close;
   Settled 0 (Found {| text := "Order now"; ariaLabel := Some "Order";
                       dataLink := Some "/checkout" |});
   SendMessage 7 (found_message {| text := "Order now"; ariaLabel := Some "Order";
                                   dataLink := Some "/checkout" |});
   DeleteController 0 7].
Proof. split; reflexivity. Qed.

End Instances.

(** * Further properties of the code *)

Ltac case_resume H :=
  unfold Session.resume, Session.loop_head, Session.catch_inner, Session.retry,
    Session.finally, Session.after in H;
  repeat match type of H with
         | context [match ?x with _ => _ end] => destruct x eqn:?; try discriminate
         end;
  simpl in *; try (injection H as <- <-); subst; simpl in *.

(** ** The deadline guard *)

Section DeadlineMore.

Import Deadline.

(** X1. The guard settles for every operation, at the earlier of the
    operation's settlement and the firing of the timer, with the
    settlement of the one that came first (the operation's on a tie); for
    an operation that never settles it is the time-out error at the
    firing of the timer. The timer fires at the duration when that is
    between 1 ms and [TIMEOUT_MAX], and after 1 ms otherwise, so a guard
    with a duration in that range never settles after it. *)
Theorem withTimeout_settles_by_deadline :
  forall (A : Type) (p : promise A) (ms : N) (reason : string),
    exists t r,
      result (withTimeout p ms reason) = SettlesAt t r /\
      (t <= setTimeout_delay ms)%N /\
      (forall t0 r0, p = SettlesAt t0 r0 ->
         t = N.min t0 (setTimeout_delay ms) /\
         ((t0 <= setTimeout_delay ms)%N -> r = r0) /\
         ((setTimeout_delay ms < t0)%N -> r = Rejected reason)) /\
      (p = NeverSettles -> t = setTimeout_delay ms /\ r = Rejected reason) /\
      ((1 <= ms <= TIMEOUT_MAX)%N -> (t <= ms)%N) /\
      ((ms < 1)%N \/ (TIMEOUT_MAX < ms)%N -> (t <= 1)%N).
Proof.
  intros A p ms reason. unfold withTimeout, race, timer.
  destruct (setTimeout_delay_spec ms) as [Hin Hout].
  destruct p as [t0 r0|].
  - destruct (N.leb_spec t0 (setTimeout_delay ms)); eexists _, _;
      (split; [reflexivity|]); (split; [lia|]);
      (split; [intros t1 r1 [= <- <-]; repeat split; (lia || reflexivity)|]);
      (split; [discriminate|]);
      (split; [intros Hr; rewrite (Hin Hr) in *; lia
              | intros Hr; rewrite (Hout Hr) in *; lia]).
  - eexists _, _. split; [reflexivity|]. split; [lia|].
    split; [discriminate|]. split; [intros _; split; reflexivity|].
    split; [intros Hr; rewrite (Hin Hr); lia | intros Hr; rewrite (Hout Hr); lia].
Qed.

End DeadlineMore.

(** ** The watch session *)

Section SessionMore.

Import Deadline Dom Session Script.

Variable RETRY_DELAY : N.
Variable PAGE_TIMEOUT : N.

Local Abbreviation resume := (Session.resume RETRY_DELAY PAGE_TIMEOUT).
Local Abbreviation drive := (Session.drive RETRY_DELAY PAGE_TIMEOUT).
Local Abbreviation scrapeUntilButtonFound :=
  (Session.scrapeUntilButtonFound RETRY_DELAY PAGE_TIMEOUT).

Lemma drive_app (i1 : list (bool * resumption)) :
  forall (i2 : list (bool * resumption)) (s s' : session) (c1 : list call),
    drive s i1 = Some (Suspended s', c1) ->
    drive s (i1 ++ i2) =
    match drive s' i2 with
    | Some (p, c2) => Some (p, c1 ++ c2)
    | None => None
    end.
Proof.
  induction i1 as [|[f r] rest IH]; intros i2 s s' c1 Hd.
  - injection Hd as <- <-. simpl. destruct (drive s i2) as [[p c2]|]; reflexivity.
  - simpl in Hd. simpl.
    destruct (resume f s r) as [[[s0|c0] cs0]|]; [| |discriminate].
    + destruct (drive s0 rest) as [[p1 cs1]|] eqn:Hd1; [|discriminate].
      injection Hd as -> <-. rewrite (IH i2 _ _ _ Hd1).
      destruct (drive s' i2) as [[p c2]|]; [|reflexivity].
      rewrite app_assoc. reflexivity.
    + destruct rest; discriminate.
Qed.

Lemma scrape_app (u : string) (i1 i2 : list (bool * resumption)) (s : session)
    (c1 : list call) :
  scrapeUntilButtonFound u i1 = Some (Suspended s, c1) ->
  scrapeUntilButtonFound u (i1 ++ i2) =
  match drive s i2 with
  | Some (p, c2) => Some (p, c1 ++ c2)
  | None => None
  end.
Proof.
  unfold Session.scrapeUntilButtonFound. intros Hrun.
  destruct (drive (start u).1 i1) as [[p0 cs]|] eqn:Hd; [|discriminate].
  injection Hrun as -> <-. rewrite (drive_app _ _ _ _ _ Hd).
  destruct (drive s i2) as [[p c2]|]; [|reflexivity].
  rewrite app_assoc. reflexivity.
Qed.

(** X2. [finally] awaits [browser.close()]: when that call rejects, its
    error is what the session settles with, whatever completion was
    pending at that point, a found snapshot included. *)
Theorem close_rejection_replaces_the_outcome :
  forall (u : string) (inputs : list (bool * resumption)) (s : session)
         (calls : list call) (pending : completion) (f : bool) (m : string),
    scrapeUntilButtonFound u inputs = Some (Suspended s, calls) ->
    point s = AwaitClose pending ->
    scrapeUntilButtonFound u (inputs ++ [(f, Closed (Rejected m))]) =
    Some (Finished (Failed m), calls).
Proof.
  intros u inputs s calls pending f m Hrun Hpt.
  rewrite (scrape_app _ _ _ _ _ Hrun). simpl.
  unfold Session.resume. rewrite Hpt. rewrite app_nil_r. reflexivity.
Qed.


(** X4. The token is read at the top of the loop and nowhere else: at
    every other point of suspension the session does the same whether
    the token is set or not. *)
Theorem token_read_only_at_loop_top :
  forall (f f' : bool) (s : session) (r : resumption),
    reads_token (point s) = false ->
    resume f s r = resume f' s r.
Proof.
  intros f f' s r Hpt. destruct s as [u b pt]. simpl in Hpt.
  destruct pt; try discriminate; reflexivity.
Qed.

(** X5. The navigation is the one await that cannot hang the session:
    whatever [page.goto] does, also if it never settles, the session is
    resumed, either on the pause after a successful load or, after
    logging the error, on the retry delay. It neither completes nor
    stays where it was. *)
Theorem navigation_always_resumes :
  forall (s : session) (f : bool) (goto : promise unit),
    point s = AwaitGoto ->
    resume f s (Navigated goto) =
      Some (Suspended (suspend_at s AwaitLoaded), [SetTimeout 1000]) \/
    exists m,
      resume f s (Navigated goto) =
      Some (Suspended (suspend_at s AwaitRetry),
            [LogError ("Error during scraping attempt: " +:+ m);
             SetTimeout RETRY_DELAY]).
Proof.
  intros s f goto Hpt. destruct s as [u b pt]. simpl in Hpt. subst pt.
  unfold Session.resume, withTimeout, race, timer. simpl.
  destruct goto as [t [[]|m]|]; simpl.
  - destruct (t <=? setTimeout_delay PAGE_TIMEOUT)%N; [left; reflexivity | right; eauto].
  - destruct (t <=? setTimeout_delay PAGE_TIMEOUT)%N; right; eauto.
  - right; eauto.
Qed.

Lemma resume_goto_url (f : bool) (s : session) (r : resumption) (p : progress)
    (calls : list call) (u' : string) :
  resume f s r = Some (p, calls) -> Goto u' ∈ calls -> u' = url s.
Proof.
  intros H Hin. destruct s as [u b pt]. simpl in *.
  case_resume H;
    repeat (apply elem_of_cons in Hin as [Hin|Hin];
            [first [discriminate | injection Hin as ->; reflexivity]|]);
    inversion Hin.
Qed.

Lemma drive_goto_url (inputs : list (bool * resumption)) :
  forall (s : session) (p : progress) (calls : list call) (u' : string),
    drive s inputs = Some (p, calls) -> Goto u' ∈ calls -> u' = url s.
Proof.
  induction inputs as [|[f r] rest IH]; intros s p calls u' Hd Hin.
  - injection Hd as <- <-. inversion Hin.
  - simpl in Hd.
    destruct (resume f s r) as [[[s0|c0] cs0]|] eqn:Hr; [| |discriminate].
    + destruct (drive s0 rest) as [[p1 cs1]|] eqn:Hd1; [|discriminate].
      injection Hd as <- <-. apply elem_of_app in Hin as [Hin|Hin].
      * exact (resume_goto_url _ _ _ _ _ _ Hr Hin).
      * rewrite <- (resume_url _ _ _ _ _ _ _ Hr). exact (IH _ _ _ _ Hd1 Hin).
    + destruct rest; [|discriminate]. injection Hd as <- <-.
      exact (resume_goto_url _ _ _ _ _ _ Hr Hin).
Qed.

Lemma scrape_goto_url (u : string) (inputs : list (bool * resumption))
    (p : progress) (calls : list call) (u' : string) :
  scrapeUntilButtonFound u inputs = Some (p, calls) ->
  Goto u' ∈ calls ->
  u' = u.
Proof.
  intros Hrun Hin.
  unfold Session.scrapeUntilButtonFound in Hrun.
  destruct (drive (start u).1 inputs) as [[p0 cs]|] eqn:Hd; [|discriminate].
  injection Hrun as <- <-. simpl in Hin.
  apply elem_of_cons in Hin as [Hin|Hin]; [discriminate|].
  exact (drive_goto_url _ _ _ _ _ Hd Hin).
Qed.

(** X6. A session navigates to the URL it was called with and to no
    other. *)
Theorem navigates_only_to_the_requested_url :
  forall (u : string) (inputs : list (bool * resumption)) (p : progress)
         (calls : list call) (u' : string),
    scrapeUntilButtonFound u inputs = Some (p, calls) ->
    Goto u' ∈ calls ->
    u' = u.
Proof. exact scrape_goto_url. Qed.

Lemma guarded_app (l k : list call) :
  every_goto_guarded PAGE_TIMEOUT l ->
  every_goto_guarded PAGE_TIMEOUT k ->
  every_goto_guarded PAGE_TIMEOUT (l ++ k).
Proof.
  intros Hl Hk i u Hi.
  apply lookup_app_Some in Hi as [Hi|[Hlen Hi]].
  - apply lookup_app_l_Some. exact (Hl _ _ Hi).
  - rewrite lookup_app_r by lia.
    replace (S i - length l) with (S (i - length l)) by lia.
    exact (Hk _ _ Hi).
Qed.

Lemma resume_guarded (f : bool) (s : session) (r : resumption) (p : progress)
    (calls : list call) :
  resume f s r = Some (p, calls) -> every_goto_guarded PAGE_TIMEOUT calls.
Proof.
  intros H. destruct s as [u b pt]. simpl in *.
  case_resume H; intros i u' Hi;
    repeat (destruct i as [|i]; simpl in Hi; try discriminate);
    reflexivity.
Qed.

Lemma drive_guarded (inputs : list (bool * resumption)) :
  forall (s : session) (p : progress) (calls : list call),
    drive s inputs = Some (p, calls) -> every_goto_guarded PAGE_TIMEOUT calls.
Proof.
  induction inputs as [|[f r] rest IH]; intros s p calls Hd.
  - injection Hd as <- <-. intros i u Hi. discriminate.
  - simpl in Hd.
    destruct (resume f s r) as [[[s0|c0] cs0]|] eqn:Hr; [| |discriminate].
    + destruct (drive s0 rest) as [[p1 cs1]|] eqn:Hd1; [|discriminate].
      injection Hd as <- <-.
      apply guarded_app; [exact (resume_guarded _ _ _ _ _ Hr) | exact (IH _ _ _ Hd1)].
    + destruct rest; [|discriminate]. injection Hd as <- <-.
      exact (resume_guarded _ _ _ _ _ Hr).
Qed.

(** X7. No navigation goes unguarded: in the calls of any session, each
    [page.goto] is followed at once by the timer of [PAGE_TIMEOUT]
    being set. *)
Theorem every_navigation_is_guarded :
  forall (u : string) (inputs : list (bool * resumption)) (p : progress)
         (calls : list call),
    scrapeUntilButtonFound u inputs = Some (p, calls) ->
    every_goto_guarded PAGE_TIMEOUT calls.
Proof.
  intros u inputs p calls Hrun.
  unfold Session.scrapeUntilButtonFound in Hrun.
  destruct (drive (start u).1 inputs) as [[p0 cs]|] eqn:Hd; [|discriminate].
  injection Hrun as <- <-.
  apply (guarded_app [Launch]); [|exact (drive_guarded _ _ _ _ Hd)].
  intros [|i] u' Hi; discriminate.
Qed.

(** One round with the button missing brings the session back to where
    it awaits the navigation. *)
Lemma round_from_goto (u : string) (td : N * document) :
  (td.1 <= setTimeout_delay PAGE_TIMEOUT)%N ->
  extract td.2 = None ->
  drive {| url := u; browser := true; point := AwaitGoto |} (round td) =
  Some (Suspended {| url := u; browser := true; point := AwaitGoto |},
        round_calls RETRY_DELAY PAGE_TIMEOUT u).
Proof.
  intros Ht Hd. destruct td as [t d]. simpl in *.
  unfold Session.resume, withTimeout, race, timer. simpl.
  destruct (N.leb_spec t (setTimeout_delay PAGE_TIMEOUT)); [|lia]. simpl.
  rewrite Hd. reflexivity.
Qed.

Lemma rounds_from_goto (u : string) (tds : list (N * document)) :
  Forall (fun td => (td.1 <= setTimeout_delay PAGE_TIMEOUT)%N /\ extract td.2 = None) tds ->
  exists calls,
    drive {| url := u; browser := true; point := AwaitGoto |} (rounds tds) =
      Some (Suspended {| url := u; browser := true; point := AwaitGoto |}, calls) /\
    navigations calls = length tds /\
    closes calls = 0.
Proof.
  induction tds as [|td tds IH]; intros Hall.
  - exists []. repeat split.
  - apply Forall_cons in Hall as [[Ht Hd] Hall].
    destruct (IH Hall) as (calls & Hrun & Hnav & Hclose).
    exists (round_calls RETRY_DELAY PAGE_TIMEOUT u ++ calls).
    cbn [rounds]. rewrite (drive_app _ _ _ _ _ (round_from_goto u td Ht Hd)), Hrun.
    split; [reflexivity|].
    rewrite navigations_app, closes_app, Hnav, Hclose. split; reflexivity.
Qed.

Lemma setup_then_rounds (u : string) (tds : list (N * document)) :
  Forall (fun td => (td.1 <= setTimeout_delay PAGE_TIMEOUT)%N /\ extract td.2 = None) tds ->
  exists calls,
    scrapeUntilButtonFound u (setup ++ rounds tds) =
      Some (Suspended {| url := u; browser := true; point := AwaitGoto |}, calls) /\
    navigations calls = S (length tds) /\
    closes calls = 0.
Proof.
  intros Hall. destruct (rounds_from_goto u tds Hall) as (calls & Hrun & Hnav & Hclose).
  assert (scrapeUntilButtonFound u setup =
          Some (Suspended {| url := u; browser := true; point := AwaitGoto |},
                [Launch; NewPage; SetUserAgent USER_AGENT;
                 LogInfo ("Navigating to " +:+ u); Goto u;
                 SetTimeout PAGE_TIMEOUT])) as Hsetup by reflexivity.
  rewrite (scrape_app _ _ _ _ _ Hsetup), Hrun.
  eexists. split; [reflexivity|].
  rewrite navigations_app, closes_app, Hnav, Hclose. split; reflexivity.
Qed.

(** X8. There is no limit to the retries: after any number of rounds in
    which the page loads in time and the button is missing or hidden,
    the session is awaiting one more navigation; it has navigated once
    per round and once more, and has not closed the browser. *)
Theorem retries_are_unbounded :
  forall (u : string) (tds : list (N * document)),
    Forall (fun td => (td.1 <= setTimeout_delay PAGE_TIMEOUT)%N /\ extract td.2 = None) tds ->
    exists calls,
      scrapeUntilButtonFound u (setup ++ rounds tds) =
        Some (Suspended {| url := u; browser := true; point := AwaitGoto |}, calls) /\
      navigations calls = S (length tds) /\
      closes calls = 0.
Proof. exact setup_then_rounds. Qed.


End SessionMore.

(** ** Scrolling *)

Section ScrollMore.

Import Scroll.
Local Open Scope Z_scope.

(** On a page that no script changes, every tick reads the same height,
    and the offset keeps up with the counter until it reaches the
    bottom. *)
Lemma interval_static (fuel : nat) :
  forall (w : window) (total now : Z) (run : list tick) (w' : window),
    interval (fun v => v) fuel w total now = Some (run, w') ->
    (forall i t, run !! i = Some t -> seen_height t = scrollHeight w) /\
    (scrollMaxY w <= scrollHeight w ->
     0 <= scrollY w ->
     Z.min total (scrollMaxY w) <= scrollY w ->
     scrollY w' = Z.max 0 (scrollMaxY w)).
Proof.
  induction fuel as [|fuel IH]; intros w total now run w' Hrun; [discriminate|].
  simpl in Hrun.
  destruct (Z.geb_spec (total + distance) (scrollHeight w)) as [Hstop|Hgo].
  - injection Hrun as <- <-. split.
    + intros [|i] t Ht; [|discriminate]. injection Ht as <-. reflexivity.
    + intros Hh Hy Hinv. simpl. unfold distance in *. lia.
  - destruct (interval (fun v => v) fuel (scrollBy distance w) (total + distance)
                (now + cadence)) as [[ts wf]|] eqn:Hrest; [|discriminate].
    injection Hrun as <- <-.
    destruct (IH _ _ _ _ _ Hrest) as [Hseen Hbottom]. split.
    + intros [|i] t Ht.
      * injection Ht as <-. reflexivity.
      * simpl in Ht. rewrite (Hseen _ _ Ht). reflexivity.
    + intros Hh Hy Hinv. simpl in Hbottom. rewrite Hbottom; [reflexivity|..];
        unfold distance in *; lia.
Qed.

(** X10. On a page whose height [H] no script changes, the routine runs
    exactly [max 1 (ceil (H / 500))] ticks, so it takes that many times
    100 ms; an empty page still takes one tick. *)
Theorem autoScroll_static_tick_count :
  forall (w : window) (fuel : nat),
    (Z.to_nat (Z.max 1 ((scrollHeight w + 499) / 500)) <= fuel)%nat ->
    exists run w',
      autoScroll (fun v => v) fuel w = Some (run, w') /\
      length run = Z.to_nat (Z.max 1 ((scrollHeight w + 499) / 500)) /\
      (forall t, last run = Some t ->
                 at_ms t = 100 * Z.max 1 ((scrollHeight w + 499) / 500)).
Proof.
  intros w fuel Hfuel.
  pose proof (Z.div_mod (scrollHeight w + 499) 500 ltac:(lia)) as Hdiv.
  pose proof (Z.mod_pos_bound (scrollHeight w + 499) 500 ltac:(lia)) as Hmod.
  destruct (interval_bounded (fun v => v) (scrollHeight w) (fun v Hv => Hv)
              fuel w 0 0 ltac:(lia)) as (run & w' & Hrun & Hlen).
  - lia.
  - unfold distance. lia.
  - exists run, w'. split; [exact Hrun|].
    destruct (interval_ticks _ _ _ _ _ _ _ Hrun) as (Hne & _ & Hticks).
    destruct (interval_static _ _ _ _ _ _ Hrun) as [Hseen _].
    assert (length run =
            Z.to_nat (Z.max 1 ((scrollHeight w + 499) / 500))) as Hexact.
    { assert (length run <> 0%nat) as Hlen0 by (destruct run; simpl; congruence).
      destruct (lookup_lt_is_Some_2 run (length run - 1)) as [t0 Hlast]; [lia|].
      destruct (Hticks _ _ Hlast) as (_ & Htot & _ & _ & _ & Hstop).
      rewrite (Hseen _ _ Hlast) in Hstop.
      assert (totalHeight t0 >= scrollHeight w) as Hge by (apply Hstop; lia).
      unfold distance in *.
      destruct (decide (length run = 1%nat)) as [Hone|Hmore]; [lia|].
      destruct (lookup_lt_is_Some_2 run (length run - 2)) as [t1 Hprev]; [lia|].
      destruct (Hticks _ _ Hprev) as (_ & Htot1 & _ & _ & _ & Hstop1).
      rewrite (Hseen _ _ Hprev) in Hstop1.
      assert (~ totalHeight t1 >= scrollHeight w) as Hlt.
      { intros Hc. apply Hstop1 in Hc. lia. }
      lia. }
    split; [exact Hexact|].
    intros t Ht. rewrite last_lookup in Ht.
    destruct (Hticks _ _ Ht) as (Hat & _).
    unfold cadence in Hat. rewrite Hat. lia.
Qed.


End ScrollMore.

(** ** Strings and the document *)

Section DomMore.

Import JsString Dom.

Lemma append_cons (x : ascii) (a b : string) :
  String x a +:+ b = String x (a +:+ b).
Proof. reflexivity. Qed.

Lemma append_nil_l (a : string) : EmptyString +:+ a = a.
Proof. reflexivity. Qed.

Lemma append_assoc (a b c : string) : (a +:+ b) +:+ c = a +:+ (b +:+ c).
Proof.
  induction a as [|x a IH]; [reflexivity|].
  rewrite !append_cons, IH. reflexivity.
Qed.

Lemma append_nil_r (a : string) : a +:+ EmptyString = a.
Proof.
  induction a as [|x a IH]; [reflexivity|].
  rewrite append_cons, IH. reflexivity.
Qed.

Lemma rev_onto_append (s : string) :
  forall acc, rev_onto s acc = reverse s +:+ acc.
Proof.
  unfold reverse. induction s as [|c s IH]; intros acc; [reflexivity|].
  cbn [rev_onto].
  rewrite (IH (String c acc)), (IH (String c EmptyString)), append_assoc.
  reflexivity.
Qed.

Lemma reverse_cons (x : ascii) (s : string) :
  reverse (String x s) = reverse s +:+ String x EmptyString.
Proof. unfold reverse at 1. cbn [rev_onto]. apply rev_onto_append. Qed.

Lemma reverse_append (a b : string) : reverse (a +:+ b) = reverse b +:+ reverse a.
Proof.
  induction a as [|x a IH].
  - rewrite append_nil_l. change (reverse EmptyString) with EmptyString.
    rewrite append_nil_r. reflexivity.
  - rewrite append_cons, !reverse_cons, IH, append_assoc. reflexivity.
Qed.

Lemma reverse_involutive (s : string) : reverse (reverse s) = s.
Proof.
  induction s as [|x s IH]; [reflexivity|].
  rewrite reverse_cons, reverse_append, IH. reflexivity.
Qed.

Lemma length_append (a b : string) :
  String.length (a +:+ b) = String.length a + String.length b.
Proof.
  induction a as [|x a IH]; [reflexivity|].
  rewrite append_cons. simpl. rewrite IH. reflexivity.
Qed.

Lemma after_prefix_Some (p : string) :
  forall s r, after_prefix p s = Some r <-> s = p +:+ r.
Proof.
  induction p as [|a p IH]; intros s r.
  - simpl. rewrite append_nil_l.
    split; [intros [= ->]; reflexivity | intros ->; reflexivity].
  - rewrite append_cons. destruct s as [|b s]; simpl.
    + split; discriminate.
    + destruct (Ascii.eqb_spec a b) as [->|Hne].
      * rewrite IH. split; [intros ->; reflexivity | intros [= ->]; reflexivity].
      * split; [discriminate | intros [= Hab _]; congruence].
Qed.

Lemma after_any_Some (ps : list string) (s r : string) :
  after_any ps s = Some r -> exists p, p ∈ ps /\ s = p +:+ r.
Proof.
  induction ps as [|q ps IH]; simpl; [discriminate|].
  destruct (after_prefix q s) as [r0|] eqn:Hq.
  - intros [= ->]. exists q. split; [apply elem_of_cons; left; reflexivity|].
    apply after_prefix_Some. exact Hq.
  - intros Hrest. destruct (IH Hrest) as (p & Hin & Hs).
    exists p. split; [apply elem_of_cons; right; exact Hin | exact Hs].
Qed.

Lemma after_any_None (ps : list string) (s : string) :
  after_any ps s = None <-> forall p r, p ∈ ps -> s <> p +:+ r.
Proof.
  induction ps as [|q ps IH]; simpl.
  - split; [intros _ p r Hin; inversion Hin | reflexivity].
  - destruct (after_prefix q s) as [r0|] eqn:Hq.
    + split; [discriminate|]. intros Hall. exfalso.
      apply (Hall q r0); [apply elem_of_cons; left; reflexivity|].
      apply after_prefix_Some. exact Hq.
    + rewrite IH. split.
      * intros Hall p r Hin Heq. apply elem_of_cons in Hin as [->|Hin].
        -- apply after_prefix_Some in Heq. congruence.
        -- exact (Hall p r Hin Heq).
      * intros Hall p r Hin. apply Hall, elem_of_cons. right. exact Hin.
Qed.

Lemma drop_leading_fixed (ps : list string) (n : nat) (s : string) :
  after_any ps s = None -> drop_leading ps n s = s.
Proof. intros Hs. destruct n; simpl; [|rewrite Hs]; reflexivity. Qed.

(** What [drop_leading] removes is made of members of [ps]. *)
Lemma drop_leading_split (ps : list string) (n : nat) :
  forall s, exists a, made_of ps a /\ s = a +:+ drop_leading ps n s.
Proof.
  induction n as [|n IH]; intros s; simpl.
  - exists EmptyString. split; [constructor | reflexivity].
  - destruct (after_any ps s) as [r|] eqn:Hs.
    + destruct (after_any_Some _ _ _ Hs) as (p & Hin & ->).
      destruct (IH r) as (a & Ha & Hr).
      exists (p +:+ a). split; [constructor; assumption|].
      rewrite append_assoc, <- Hr. reflexivity.
    + exists EmptyString. split; [constructor | reflexivity].
Qed.

(** With fuel for the whole string, nothing of [ps] is left in front. *)
Lemma drop_leading_done (ps : list string) :
  Forall (fun p => p <> EmptyString) ps ->
  forall n s, String.length s <= n -> after_any ps (drop_leading ps n s) = None.
Proof.
  intros Hps. induction n as [|n IH]; intros s Hlen; simpl.
  - destruct s; [|simpl in Hlen; lia].
    apply after_any_None. intros p r Hin Heq.
    rewrite Forall_forall in Hps. apply (Hps p Hin).
    destruct p; [reflexivity | discriminate].
  - destruct (after_any ps s) as [r|] eqn:Hs; [|exact Hs].
    destruct (after_any_Some _ _ _ Hs) as (p & Hin & ->).
    apply IH. rewrite length_append in Hlen.
    rewrite Forall_forall in Hps. specialize (Hps p Hin).
    destruct p; [congruence | simpl in Hlen; lia].
Qed.

Lemma made_of_app (ps : list string) (a b : string) :
  made_of ps a -> made_of ps b -> made_of ps (a +:+ b).
Proof.
  intros Ha Hb. induction Ha as [|p s Hin Hs IH]; [exact Hb|].
  rewrite append_assoc. constructor; assumption.
Qed.

Lemma made_of_reverse (ps : list string) (a : string) :
  made_of (map reverse ps) a -> made_of ps (reverse a).
Proof.
  intros Ha. induction Ha as [|p s Hin Hs IH]; [constructor|].
  rewrite reverse_append. apply made_of_app; [exact IH|].
  apply list_elem_of_In, in_map_iff in Hin as (q & <- & Hq).
  rewrite reverse_involutive, <- (append_nil_r q).
  constructor; [apply list_elem_of_In; exact Hq | constructor].
Qed.

Lemma WHITE_SPACE_nonempty :
  Forall (fun p => p <> EmptyString) WHITE_SPACE /\
  Forall (fun p => p <> EmptyString) (map reverse WHITE_SPACE).
Proof. split; vm_compute; repeat (constructor; [discriminate|]); constructor. Qed.

(** [trimStart] takes white space off the front, and all of it. *)
Lemma trimStart_spec (s : string) :
  (exists a, made_of WHITE_SPACE a /\ s = a +:+ trimStart s) /\
  after_any WHITE_SPACE (trimStart s) = None.
Proof.
  split; [apply drop_leading_split|].
  apply drop_leading_done; [apply WHITE_SPACE_nonempty | lia].
Qed.

(** [trimEnd] takes white space off the end, and all of it. *)
Lemma trimEnd_spec (s : string) :
  (exists b, made_of WHITE_SPACE b /\ s = trimEnd s +:+ b) /\
  after_any (map reverse WHITE_SPACE) (reverse (trimEnd s)) = None.
Proof.
  unfold trimEnd, drop_all_leading. rewrite reverse_involutive. split.
  - destruct (drop_leading_split (map reverse WHITE_SPACE)
                (String.length (reverse s)) (reverse s)) as (c & Hc & Hs).
    exists (reverse c). split; [apply made_of_reverse; exact Hc|].
    rewrite <- reverse_append, <- Hs, reverse_involutive. reflexivity.
  - apply drop_leading_done; [apply WHITE_SPACE_nonempty | lia].
Qed.

(** X12. [trim] takes off the white space at both ends and nothing
    else: the string is what [trim] returns between two runs of
    white-space code points (those of [WHITE_SPACE], which is every code
    point that [String.prototype.trim] removes), and what it returns
    neither starts nor ends with one, so that trimming it again changes
    nothing. The text of every snapshot is the text content of an element
    of the document trimmed in this way. *)
Theorem snapshot_text_is_trimmed :
  (forall s,
     (exists a b, made_of WHITE_SPACE a /\ made_of WHITE_SPACE b /\
                  s = a +:+ trim s +:+ b) /\
     (forall w x, w ∈ WHITE_SPACE -> trim s <> w +:+ x /\ trim s <> x +:+ w) /\
     trim (trim s) = trim s) /\
  (forall d data,
     extract d = Some data ->
     exists e, e ∈ elements d /\ text data = trim (textContent e)) /\
  trim (of_bytes [227; 128; 128; 32; 79; 114; 100; 101; 114; 32; 110; 111; 119;
                  194; 160; 226; 128; 169; 10]) = "Order now".
Proof.
  assert (forall s w x, w ∈ WHITE_SPACE ->
                        trim s <> w +:+ x /\ trim s <> x +:+ w) as Hends.
  { intros s w x Hw. unfold trim.
    destruct (trimStart_spec s) as [_ Hfront].
    destruct (trimEnd_spec (trimStart s)) as [(b & _ & Hb) Hback].
    split; intros Heq.
    - rewrite after_any_None in Hfront. apply (Hfront w (x +:+ b) Hw).
      rewrite Hb at 1. rewrite Heq, append_assoc. reflexivity.
    - rewrite after_any_None in Hback.
      apply (Hback (reverse w) (reverse x)).
      + apply list_elem_of_In, in_map, list_elem_of_In. exact Hw.
      + rewrite Heq, reverse_append. reflexivity. }
  split; [|split; [|reflexivity]].
  - intros s. split; [|split; [apply Hends|]].
    + destruct (trimStart_spec s) as [(a & Ha & Hs) _].
      destruct (trimEnd_spec (trimStart s)) as [(b & Hb & Hu) _].
      exists a, b. split; [exact Ha|]. split; [exact Hb|].
      unfold trim. rewrite <- Hu. exact Hs.
    + assert (trimStart (trim s) = trim s) as Hstart.
      { apply drop_leading_fixed, after_any_None.
        intros w x Hw. exact (proj1 (Hends s w x Hw)). }
      unfold trim at 1. rewrite Hstart. unfold trimEnd, drop_all_leading.
      rewrite drop_leading_fixed; [apply reverse_involutive|].
      apply after_any_None. intros w x Hw Heq.
      apply list_elem_of_In, in_map_iff in Hw as (v & <- & Hv).
      apply list_elem_of_In in Hv.
      apply (proj2 (Hends s v (reverse x) Hv)).
      rewrite <- (reverse_involutive (trim s)), Heq, reverse_append,
        reverse_involutive. reflexivity.
  - intros d data Hd. unfold extract in Hd.
    destruct (querySelector d) as [e|] eqn:He; [|discriminate].
    destruct (contains (classList e) "hide"); [discriminate|].
    injection Hd as <-. exists e. split; [|reflexivity].
    destruct (querySelector_Some _ _ He) as (pre & rest & -> & _).
    apply elem_of_app. right. apply elem_of_cons. left. reflexivity.
Qed.

(** X13. Only the first element that the selector matches counts. What
    comes before it (not matched) and whatever comes after it do not
    change the result: if that first match is hidden the extraction gives
    [null] even when a later match is shown. A document without a match
    gives [null]. In a quirks-mode document the match is by ASCII case
    folding, while the test for [hide] is not. *)
Theorem first_match_decides :
  (forall (q : bool) (pre : list element) (e : element) (rest : list element),
     Forall (fun x => is_target q x = false) pre ->
     is_target q e = true ->
     querySelector {| quirksMode := q; elements := pre ++ e :: rest |} = Some e /\
     extract {| quirksMode := q; elements := pre ++ e :: rest |} =
     extract {| quirksMode := q; elements := [e] |} /\
     (contains (classList e) "hide" = true ->
      extract {| quirksMode := q; elements := pre ++ e :: rest |} = None)) /\
  (forall d : document,
     Forall (fun x => is_target (quirksMode d) x = false) (elements d) ->
     extract d = None) /\
  (forall e,
     (is_target false e = true <->
      "order__button" ∈ classList e /\ "btn-main" ∈ classList e) /\
     (is_target true e = true <->
      (exists c, c ∈ classList e /\ lower c = "order__button") /\
      (exists c, c ∈ classList e /\ lower c = "btn-main")) /\
     (contains (classList e) "hide" = true <-> "hide" ∈ classList e)).
Proof.
  split; [|split].
  - intros q pre e rest Hpre He. unfold extract.
    rewrite (querySelector_first _ _ _ _ Hpre He).
    assert (querySelector {| quirksMode := q; elements := [e] |} = Some e) as ->
        by exact (querySelector_first q [] e [] (Forall_nil_2 _) He).
    split; [reflexivity|]. split; [reflexivity|]. intros ->. reflexivity.
  - intros d Hd. apply extract_None. left. apply querySelector_None. exact Hd.
  - intros e. unfold is_target. rewrite !andb_true_iff.
    split; [rewrite !matches_class_exact; reflexivity|].
    split; [rewrite !matches_class_quirks; reflexivity | apply contains_elem_of].
Qed.

End DomMore.

(** ** The bot *)

Section BotMore.

Import Deadline Dom Session Bot.

Variable RETRY_DELAY : N.
Variable PAGE_TIMEOUT : N.
Variable url_parses : string -> bool.

Local Abbreviation resume := (Session.resume RETRY_DELAY PAGE_TIMEOUT).
Local Abbreviation step := (Bot.step RETRY_DELAY PAGE_TIMEOUT url_parses).
Local Abbreviation run_from := (Bot.run_from RETRY_DELAY PAGE_TIMEOUT url_parses).
Local Abbreviation run := (Bot.run RETRY_DELAY PAGE_TIMEOUT url_parses).

Local Abbreviation scrapeUntilButtonFound := Session.scrapeUntilButtonFound.

Local Abbreviation invariant_run :=
  (invariant_run RETRY_DELAY PAGE_TIMEOUT url_parses).

Lemma controller_of_running (us : list update) (sid : nat) (h : handler) :
  running (run us) !! sid = Some h ->
  scrapingControllers (run us) !! chatId h = Some sid.
Proof.
  intros Hh. destruct (invariant_run us) as [Hctl _ _ _ _ _ _].
  destruct h as [chat s]. apply Hctl. eauto.
Qed.

Lemma no_controller_when_idle (us : list update) (chat : Z) :
  ~ active (run us) chat -> scrapingControllers (run us) !! chat = None.
Proof.
  intros Hidle. destruct (invariant_run us) as [Hctl _ _ _ _ _ _].
  destruct (scrapingControllers (run us) !! chat) as [sid|] eqn:Hc; [|reflexivity].
  exfalso. apply Hidle. apply Hctl in Hc as [s Hs]. exists sid. eauto.
Qed.

(** X14. The controllers and the suspended handlers match one to one:
    a conversation never has two sessions at a time, every suspended
    handler is filed under its own conversation, and every controller
    is the token of a suspended handler of that conversation. *)
Theorem one_session_per_conversation :
  forall (us : list update),
    (forall s1 s2 h1 h2,
       running (run us) !! s1 = Some h1 ->
       running (run us) !! s2 = Some h2 ->
       chatId h1 = chatId h2 ->
       s1 = s2) /\
    (forall sid h,
       running (run us) !! sid = Some h ->
       scrapingControllers (run us) !! chatId h = Some sid) /\
    (forall chat sid,
       scrapingControllers (run us) !! chat = Some sid ->
       exists h, running (run us) !! sid = Some h /\ chatId h = chat).
Proof.
  intros us. split; [|split].
  - intros s1 s2 h1 h2 H1 H2 Hchat.
    apply controller_of_running in H1, H2. rewrite Hchat in H1. congruence.
  - apply controller_of_running.
  - intros chat sid Hc. destruct (invariant_run us) as [Hctl _ _ _ _ _ _].
    apply Hctl in Hc as [s Hs]. eauto.
Qed.

(** X15. [/stop] tells the operator the truth. When a session is active
    for the conversation it sets that session's token, says that
    scraping has been stopped, and leaves the controller in place; when
    none is, it says so and changes nothing. *)
Theorem stop_reports_whether_a_session_was_active :
  forall (us : list update) (chat : Z),
    (forall sid h,
       running (run us) !! sid = Some h ->
       chatId h = chat ->
       step (run us) (OnStop chat) =
       {| tokens := <[sid := true]> (tokens (run us));
          scrapingControllers := scrapingControllers (run us);
          running := running (run us);
          trace := trace (run us) ++
            [SetCancelled sid; SendMessage chat "Scraping has been stopped."] |} /\
       cancelled (step (run us) (OnStop chat)) sid = true) /\
    (~ active (run us) chat ->
     step (run us) (OnStop chat) =
     emit (run us) [SendMessage chat "No active scraping process to stop."]).
Proof.
  intros us chat. split.
  - intros sid h Hh <-. simpl. unfold onStop.
    rewrite (controller_of_running _ _ _ Hh). split; [reflexivity|].
    unfold cancelled. simpl.
    destruct (invariant_run us) as [_ Halloc _ _ _ _ _].
    rewrite list_lookup_insert_eq by exact (Halloc _ _ Hh). reflexivity.
  - intros Hidle. simpl. unfold onStop.
    rewrite (no_controller_when_idle _ _ Hidle). reflexivity.
Qed.

(** X16. [/stop] from one conversation does not touch the token of a
    session of another conversation. *)
Theorem stop_spares_other_conversations :
  forall (us : list update) (chat : Z) (sid : nat) (h : handler),
    running (run us) !! sid = Some h ->
    chatId h <> chat ->
    tokens (step (run us) (OnStop chat)) !! sid = tokens (run us) !! sid.
Proof.
  intros us chat sid h Hh Hother. simpl. unfold onStop.
  destruct (scrapingControllers (run us) !! chat) as [addr|] eqn:Hc; [|reflexivity].
  simpl. apply list_lookup_insert_ne. intros ->.
  destruct (invariant_run us) as [Hctl _ _ _ _ _ _].
  apply Hctl in Hc as [s Hs]. rewrite Hh in Hs. injection Hs as ->.
  apply Hother. reflexivity.
Qed.

(** X17. [/stop] does not free the conversation: until the cancelled
    session has settled, a [/scrape] with a URL that parses is still
    turned away as already running, and the session stays as it was. *)
Theorem stop_does_not_free_the_conversation :
  forall (us : list update) (sid : nat) (h : handler) (u : string),
    running (run us) !! sid = Some h ->
    url_parses u = true ->
    trace (run (us ++ [OnStop (chatId h); OnScrape (chatId h) u])) =
      trace (run us) ++
      [SetCancelled sid;
       SendMessage (chatId h) "Scraping has been stopped.";
       SendMessage (chatId h) ALREADY_RUNNING] /\
    running (run (us ++ [OnStop (chatId h); OnScrape (chatId h) u])) =
      running (run us) /\
    scrapingControllers (run (us ++ [OnStop (chatId h); OnScrape (chatId h) u])) =
      scrapingControllers (run us).
Proof.
  intros us sid h u Hh Hu.
  unfold Bot.run. rewrite run_from_app. fold (run us).
  pose proof (controller_of_running _ _ _ Hh) as Hc.
  simpl. unfold onStop at 1 2 3. rewrite Hc.
  unfold Bot.onScrape. rewrite Hu. simpl. rewrite Hc. simpl.
  rewrite <- app_assoc. repeat split.
Qed.

Lemma admit_when_idle (us : list update) (chat : Z) (u : string) :
  ~ active (run us) chat ->
  url_parses u = true ->
  step (run us) (OnScrape chat u) =
  {| tokens := tokens (run us) ++ [false];
     scrapingControllers :=
       <[chat := length (tokens (run us))]> (scrapingControllers (run us));
     running :=
       <[length (tokens (run us)) :=
           {| chatId := chat;
              body := {| url := u; browser := false; point := AwaitLaunch |} |}]>
         (running (run us));
     trace := trace (run us) ++
       [NewToken (length (tokens (run us)));
        SetController chat (length (tokens (run us)));
        Called (length (tokens (run us))) (request_line u);
        Called (length (tokens (run us))) Launch] |}.
Proof.
  intros Hidle Hu. simpl. unfold Bot.onScrape. rewrite Hu. simpl.
  rewrite (no_controller_when_idle _ _ Hidle). reflexivity.
Qed.

Lemma run_snoc (us : list update) (v : update) :
  run (us ++ [v]) = step (run us) v.
Proof. unfold Bot.run. rewrite run_from_app. reflexivity. Qed.

Lemma navigations_of_calls (sid : nat) (tr : list effect) :
  navigations_of sid tr = navigations (calls_of sid tr).
Proof.
  unfold navigations_of, navigations.
  induction tr as [|e tr IH]; [reflexivity|].
  destruct e as [| | | | |s c| |]; simpl; try exact IH.
  destruct c; destruct (Nat.eqb s sid); simpl; rewrite IH; reflexivity.
Qed.

(** X18. A [/scrape] with a URL that parses, from a conversation without
    an active session, is admitted: a new token is created unset, it
    becomes the conversation's controller, the request is logged and the
    browser launch is started. The session is then active. *)
Theorem scrape_is_admitted_when_idle :
  forall (us : list update) (chat : Z) (u : string),
    ~ active (run us) chat ->
    url_parses u = true ->
    step (run us) (OnScrape chat u) =
    {| tokens := tokens (run us) ++ [false];
       scrapingControllers :=
         <[chat := length (tokens (run us))]> (scrapingControllers (run us));
       running :=
         <[length (tokens (run us)) :=
             {| chatId := chat;
                body := {| url := u; browser := false; point := AwaitLaunch |} |}]>
           (running (run us));
       trace := trace (run us) ++
         [NewToken (length (tokens (run us)));
          SetController chat (length (tokens (run us)));
          Called (length (tokens (run us))) (request_line u);
          Called (length (tokens (run us))) Launch] |} /\
    cancelled (step (run us) (OnScrape chat u)) (length (tokens (run us))) = false /\
    active (step (run us) (OnScrape chat u)) chat.
Proof.
  intros us chat u Hidle Hu.
  pose proof (admit_when_idle us chat u Hidle Hu) as Hstep.
  rewrite Hstep. split; [reflexivity|]. split.
  - unfold cancelled. simpl.
    rewrite lookup_app_r by lia. rewrite Nat.sub_diag. reflexivity.
  - eexists _, _. simpl. split; [apply lookup_insert_eq | reflexivity].
Qed.

(** X19. When a session settles, with whatever completion, its
    conversation is free at once: the next [/scrape] with a URL that
    parses is admitted, under a new token that is unset. *)
Theorem settling_frees_the_conversation :
  forall (us : list update) (sid : nat) (h : handler) (r : resumption)
         (c : completion) (calls : list call) (u : string),
    running (run us) !! sid = Some h ->
    resume (cancelled (run us) sid) (body h) r = Some (Finished c, calls) ->
    url_parses u = true ->
    ~ active (run (us ++ [Settle sid r])) (chatId h) /\
    scrapingControllers (run (us ++ [Settle sid r; OnScrape (chatId h) u]))
      !! chatId h = Some (length (tokens (run us))) /\
    tokens (run (us ++ [Settle sid r; OnScrape (chatId h) u])) =
      tokens (run us) ++ [false] /\
    length (tokens (run us)) <> sid.
Proof.
  intros us sid h r c calls u Hh Hr Hu.
  assert (scrapingControllers (run (us ++ [Settle sid r])) !! chatId h = None /\
          tokens (run (us ++ [Settle sid r])) = tokens (run us)) as [Hfree Htok].
  { unfold Bot.run. rewrite run_from_app. fold (run us). simpl.
    unfold Bot.onSettle. rewrite Hh, Hr. simpl.
    split; [apply lookup_delete_eq | reflexivity]. }
  assert (~ active (run (us ++ [Settle sid r])) (chatId h)) as Hidle.
  { intros (sid' & h' & Hh' & Hchat).
    apply controller_of_running in Hh'. rewrite Hchat in Hh'. congruence. }
  split; [exact Hidle|].
  assert (run (us ++ [Settle sid r; OnScrape (chatId h) u]) =
          step (run (us ++ [Settle sid r])) (OnScrape (chatId h) u)) as ->.
  { replace (us ++ [Settle sid r; OnScrape (chatId h) u])
      with ((us ++ [Settle sid r]) ++ [OnScrape (chatId h) u])
      by (rewrite <- app_assoc; reflexivity).
    unfold Bot.run. rewrite (run_from_app _ _ _ _ (us ++ [Settle sid r])).
    reflexivity. }
  rewrite (admit_when_idle (us ++ [Settle sid r]) (chatId h) u Hidle Hu).
  cbn [scrapingControllers tokens].
  rewrite Htok. split; [apply lookup_insert_eq|]. split; [reflexivity|].
  destruct (invariant_run us) as [_ Halloc _ _ _ _ _].
  pose proof (Halloc _ _ Hh). lia.
Qed.

(** X20. The settlement of one session's promise writes no token and
    touches neither another suspended handler nor the controller of a
    conversation other than that session's. *)
Theorem settlements_are_local :
  forall (b : bot) (sid : nat) (r : resumption),
    tokens (step b (Settle sid r)) = tokens b /\
    (forall sid', sid' <> sid ->
                  running (step b (Settle sid r)) !! sid' = running b !! sid') /\
    (forall chat',
       (forall h, running b !! sid = Some h -> chatId h <> chat') ->
       scrapingControllers (step b (Settle sid r)) !! chat' =
       scrapingControllers b !! chat').
Proof.
  intros b sid r. simpl. unfold Bot.onSettle.
  destruct (running b !! sid) as [h|] eqn:Hh; [|repeat split].
  destruct (resume (cancelled b sid) (body h) r) as [[[s'|c] calls]|];
    simpl; (split; [reflexivity|]); split; try reflexivity.
  - intros sid' Hne. apply lookup_insert_ne. congruence.
  - intros sid' Hne. apply lookup_delete_ne. congruence.
  - intros chat' Hother. apply lookup_delete_ne. exact (Hother _ eq_refl).
Qed.

Lemma calls_of_elem (sid : nat) (c : call) (tr : list effect) :
  Called sid c ∈ tr -> c ∈ calls_of sid tr.
Proof.
  induction tr as [|e tr IH]; intros Hin; [inversion Hin|].
  apply elem_of_cons in Hin as [<-|Hin].
  - simpl. rewrite Nat.eqb_refl. left.
  - simpl. destruct (called_by sid e); [right|]; exact (IH Hin).
Qed.

Lemma count_pos {A : Type} (p : A -> bool) (l : list A) :
  1 <= count p l -> exists x, x ∈ l /\ p x = true.
Proof.
  induction l as [|y l IH]; simpl; [lia|].
  destruct (p y) eqn:Hy.
  - intros _. exists y. split; [left | exact Hy].
  - intros Hl. destruct (IH Hl) as (x & Hx & Hp). exists x. split; [right|]; assumption.
Qed.

(** A handler invocation is unborn, suspended, or settled. *)
Lemma session_stage (us : list update) (sid : nat) :
  length (tokens (run us)) <= sid \/
  is_Some (running (run us) !! sid) \/
  exists c, Settled sid c ∈ trace (run us).
Proof.
  destruct (invariant_run us) as [_ _ _ _ Hdel Hsett _].
  destruct (decide (sid < length (tokens (run us)))) as [Hlt|Hge]; [|left; lia].
  right. destruct (running (run us) !! sid) as [h|] eqn:Hh; [left; eauto|].
  right. specialize (Hsett sid). rewrite Hdel in Hsett.
  case_decide as Hc; [|exfalso; apply Hc; split; assumption].
  destruct (count_pos (is_settled_of sid) (trace (run us))) as (e & He & Hp).
  { unfold settlements_of in Hsett. lia. }
  destruct e as [| | | | | |s c|]; try discriminate.
  simpl in Hp. apply Nat.eqb_eq in Hp as ->. eauto.
Qed.

(** X23. Every handler invocation of the bot wraps a run of
    [scrapeUntilButtonFound] on the URL of its [/scrape]: the calls it
    has made so far are its request line followed by the calls of such
    a run, suspended where the handler is suspended, and once the
    session has settled, by what [catch] logs. An invocation not yet
    admitted has made no call. *)
Theorem sessions_are_runs :
  forall (us : list update) (sid : nat),
    (length (tokens (run us)) <= sid -> calls_of sid (trace (run us)) = []) /\
    (forall h,
       running (run us) !! sid = Some h ->
       exists inputs calls,
         scrapeUntilButtonFound RETRY_DELAY PAGE_TIMEOUT (url (body h)) inputs =
           Some (Suspended (body h), calls) /\
         calls_of sid (trace (run us)) = request_line (url (body h)) :: calls) /\
    (forall c,
       Settled sid c ∈ trace (run us) ->
       exists u inputs calls,
         scrapeUntilButtonFound RETRY_DELAY PAGE_TIMEOUT u inputs =
           Some (Finished c, calls) /\
         calls_of sid (trace (run us)) = request_line u :: calls ++ handler_log c).
Proof.
  intros us sid.
  destruct (chronicle_run RETRY_DELAY PAGE_TIMEOUT url_parses us)
    as [Hfresh Hrun Hdone].
  split; [apply Hfresh|]. split; [apply Hrun | apply Hdone].
Qed.

(** X24. The bot navigates nowhere but to the URLs of the [/scrape]
    commands it admitted: whenever a handler's session has called
    [page.goto] on a URL, that handler has logged the request for that
    URL. *)
Theorem bot_navigates_only_where_asked :
  forall (us : list update) (sid : nat) (u : string),
    Called sid (Goto u) ∈ trace (run us) ->
    Called sid (request_line u) ∈ trace (run us) /\
    head (calls_of sid (trace (run us))) = Some (request_line u).
Proof.
  intros us sid u Hin.
  pose proof (calls_of_elem _ _ _ Hin) as Hcall.
  destruct (chronicle_run RETRY_DELAY PAGE_TIMEOUT url_parses us)
    as [Hfresh Hrun Hdone].
  assert (exists u0 inputs p calls tail,
             scrapeUntilButtonFound RETRY_DELAY PAGE_TIMEOUT u0 inputs =
               Some (p, calls) /\
             calls_of sid (trace (run us)) = request_line u0 :: calls ++ tail /\
             Goto u ∉ tail) as (u0 & inputs & p & calls & tail & Hscrape & Hcalls & Htail).
  { destruct (session_stage us sid) as [Hge|[[h Hh]|[c Hc]]].
    - rewrite (Hfresh _ Hge) in Hcall. inversion Hcall.
    - destruct (Hrun _ _ Hh) as (inputs & calls & Hscrape & Hcalls).
      exists (url (body h)), inputs, (Suspended (body h)), calls, [].
      rewrite app_nil_r. split; [exact Hscrape|]. split; [exact Hcalls|].
      intros Hnil. inversion Hnil.
    - destruct (Hdone _ _ Hc) as (u0 & inputs & calls & Hscrape & Hcalls).
      exists u0, inputs, (Finished c), calls, (handler_log c).
      split; [exact Hscrape|]. split; [exact Hcalls|].
      destruct c; simpl; intros Hl; [inversion Hl|].
      apply list_elem_of_singleton in Hl. discriminate. }
  rewrite Hcalls in Hcall.
  apply elem_of_cons in Hcall as [Heq|Hcall]; [discriminate|].
  apply elem_of_app in Hcall as [Hcall|Hcall]; [|contradiction].
  pose proof (scrape_goto_url _ _ _ _ _ _ _ Hscrape Hcall) as ->.
  split; [|rewrite Hcalls; reflexivity].
  assert (request_line u0 ∈ calls_of sid (trace (run us))) as Hreq
      by (rewrite Hcalls; left).
  clear -Hreq. induction (trace (run us)) as [|e tr IH]; [inversion Hreq|].
  simpl in Hreq. destruct e as [| | | | |s c| |]; simpl in Hreq;
    try (right; exact (IH Hreq)).
  destruct (Nat.eqb_spec s sid) as [->|Hne]; [|right; exact (IH Hreq)].
  apply elem_of_cons in Hreq as [<-|Hreq]; [left | right; exact (IH Hreq)].
Qed.

End BotMore.

(** * Cancellation *)

Section CancellationFacts.

Import Deadline Dom Session Bot Script.

Variable RETRY_DELAY : N.
Variable PAGE_TIMEOUT : N.
Variable url_parses : string -> bool.

Local Abbreviation resume := (Session.resume RETRY_DELAY PAGE_TIMEOUT).
Local Abbreviation step := (Bot.step RETRY_DELAY PAGE_TIMEOUT url_parses).
Local Abbreviation run := (Bot.run RETRY_DELAY PAGE_TIMEOUT url_parses).
Local Abbreviation scrapeUntilButtonFound :=
  (Session.scrapeUntilButtonFound RETRY_DELAY PAGE_TIMEOUT).



End CancellationFacts.

(** ** Messages and patterns *)

Section DispatchMore.

Import Deadline Dom Session Bot Dispatch.

Variable RETRY_DELAY : N.
Variable PAGE_TIMEOUT : N.
Variable url_parses : string -> bool.

Local Abbreviation step := (Bot.step RETRY_DELAY PAGE_TIMEOUT url_parses).
Local Abbreviation run_from := (Bot.run_from RETRY_DELAY PAGE_TIMEOUT url_parses).
Local Abbreviation run := (Bot.run RETRY_DELAY PAGE_TIMEOUT url_parses).
Local Abbreviation deliver := (Dispatch.deliver RETRY_DELAY PAGE_TIMEOUT url_parses).











(** X22. One message can set off two handlers. When a text matches the
    pattern of [/scrape] and also contains "/stop" (in the URL itself,
    for instance), the [/scrape] handler admits the session and starts
    the launch, and the [/stop] handler, called next for the same
    message, sets the token of that very session. The session then
    never navigates, whatever happens afterwards. *)
Theorem scrape_and_stop_in_one_message :
  forall (us : list update) (chat : Z) (text capture : string),
    ~ active (run us) chat ->
    exec_scrape text = Some capture ->
    occurs "/stop" text = true ->
    url_parses (JsString.trim capture) = true ->
    running (deliver (run us) chat text) !! length (tokens (run us)) =
      Some {| chatId := chat;
              body := {| url := JsString.trim capture; browser := false;
                         point := AwaitLaunch |} |} /\
    cancelled (deliver (run us) chat text) (length (tokens (run us))) = true /\
    forall vs,
      navigations_of (length (tokens (run us)))
        (trace (run_from (deliver (run us) chat text) vs)) = 0.
Proof.
  intros us chat text capture Hidle Hscrape Hstop Hu.
  assert (exists us',
             deliver (run us) chat text =
               step (step (run us') (OnScrape chat (JsString.trim capture)))
                    (OnStop chat) /\
             tokens (run us') = tokens (run us) /\
             ~ active (run us') chat) as (us' & Hdeliver & Htok & Hidle').
  { unfold Dispatch.deliver, handlers. rewrite Hscrape, Hstop.
    destruct (occurs "/start" text).
    - exists (us ++ [OnStart chat]).
      rewrite (run_snoc RETRY_DELAY PAGE_TIMEOUT url_parses).
      split; [reflexivity|]. split; [reflexivity|]. exact Hidle.
    - exists us. split; [reflexivity|]. split; [reflexivity|]. exact Hidle. }
  rewrite Hdeliver, <- Htok.
  rewrite (admit_when_idle RETRY_DELAY PAGE_TIMEOUT url_parses us' chat _ Hidle' Hu).
  assert (forall b, step b (OnStop chat) = onStop b chat) as Hstep by reflexivity.
  rewrite Hstep. unfold onStop. cbn [scrapingControllers].
  rewrite lookup_insert_eq. cbn [running tokens trace].
  assert (<[length (tokens (run us')) := true]> (tokens (run us') ++ [false])
            !! length (tokens (run us')) = Some true) as Hset.
  { apply list_lookup_insert_eq. rewrite length_app. simpl. lia. }
  split; [apply lookup_insert_eq|]. split.
  - unfold cancelled. cbn [tokens]. rewrite Hset. reflexivity.
  - intros vs.
    match goal with
    | |- context [Bot.run_from _ _ _ ?b vs] =>
        destruct (run_from_cancelled RETRY_DELAY PAGE_TIMEOUT url_parses vs
                    (length (tokens (run us'))) b Hset) as [_ ->]
    end.
    cbn [trace]. rewrite navigations_of_calls, !calls_of_app.
    destruct (chronicle_run RETRY_DELAY PAGE_TIMEOUT url_parses us')
      as [Hfresh _ _].
    rewrite (Hfresh _ (Nat.le_refl _)). simpl. rewrite Nat.eqb_refl. reflexivity.
Qed.

End DispatchMore.

(** ** Further instances *)

Section MoreInstances.

Import Deadline Dom Session Script Bot Dispatch.

Local Abbreviation scrape := (Session.scrapeUntilButtonFound 5000 30000).
Local Abbreviation run := (Bot.run 5000 30000 Url.has_scheme).
Local Abbreviation step := (Bot.step 5000 30000 Url.has_scheme).
Local Abbreviation deliver := (Dispatch.deliver 5000 30000 Url.has_scheme).

Lemma close_rejection_replaces_the_outcome_witness :
  scrape "https://shop.example/item"
    ((setup ++ attempt (400%N, shown_button)) ++
     [(false, Closed (Rejected "Protocol error: Connection closed"))]) =
  Some (Finished (Failed "Protocol error: Connection closed"),
        [Launch; NewPage; SetUserAgent USER_AGENT;
         LogInfo "Navigating to https://shop.example/item";
         Goto "https://shop.example/item"; SetTimeout 30000;
         SetTimeout 1000; AutoScroll; SetTimeout 2000; Evaluate;
         LogInfo "Button found."; Close]).
Proof.
  apply (close_rejection_replaces_the_outcome 5000 30000
           "https://shop.example/item"
           (setup ++ attempt (400%N, shown_button))
           {| url := "https://shop.example/item"; browser := true;
              point := AwaitClose
                         (Found {| text := "Order now"; ariaLabel := Some "Order";
                                   dataLink := Some "/checkout" |}) |}
           _
           (Found {| text := "Order now"; ariaLabel := Some "Order";
                     dataLink := Some "/checkout" |})
           false "Protocol error: Connection closed");
    reflexivity.
Defined.

Lemma token_read_only_at_loop_top_witness :
  resume 5000 30000 true
    {| url := "https://shop.example/item"; browser := true; point := AwaitEvaluate |}
    (Evaluated (Fulfilled shown_button)) =
  resume 5000 30000 false
    {| url := "https://shop.example/item"; browser := true; point := AwaitEvaluate |}
    (Evaluated (Fulfilled shown_button)).
Proof.
  apply (token_read_only_at_loop_top 5000 30000 true false). reflexivity.
Defined.

Lemma navigation_always_resumes_witness :
  resume 5000 30000 false
    {| url := "https://shop.example/item"; browser := true; point := AwaitGoto |}
    (Navigated NeverSettles) =
    Some (Suspended {| url := "https://shop.example/item"; browser := true;
                       point := AwaitLoaded |},
          [SetTimeout 1000]) \/
  exists m,
    resume 5000 30000 false
      {| url := "https://shop.example/item"; browser := true; point := AwaitGoto |}
      (Navigated NeverSettles) =
    Some (Suspended {| url := "https://shop.example/item"; browser := true;
                       point := AwaitRetry |},
          [LogError ("Error during scraping attempt: " +:+ m); SetTimeout 5000]).
Proof.
  apply (navigation_always_resumes 5000 30000
           {| url := "https://shop.example/item"; browser := true;
              point := AwaitGoto |} false NeverSettles).
  reflexivity.
Defined.

Lemma navigates_only_to_the_requested_url_witness :
  "https://shop.example/item" = "https://shop.example/item".
Proof.
  apply (navigates_only_to_the_requested_url 5000 30000
           "https://shop.example/item" setup
           (Suspended {| url := "https://shop.example/item"; browser := true;
                         point := AwaitGoto |})
           [Launch; NewPage; SetUserAgent USER_AGENT;
            LogInfo "Navigating to https://shop.example/item";
            Goto "https://shop.example/item"; SetTimeout 30000]).
  - reflexivity.
  - do 4 right. left.
Defined.

Lemma every_navigation_is_guarded_witness :
  every_goto_guarded 30000
    [Launch; NewPage; SetUserAgent USER_AGENT;
     LogInfo "Navigating to https://shop.example/item";
     Goto "https://shop.example/item"; SetTimeout 30000].
Proof.
  apply (every_navigation_is_guarded 5000 30000 "https://shop.example/item" setup
           (Suspended {| url := "https://shop.example/item"; browser := true;
                         point := AwaitGoto |})).
  reflexivity.
Defined.

Lemma retries_are_unbounded_witness :
  exists calls,
    scrape "https://shop.example/item" (setup ++ rounds [(400%N, blank_page); (900%N, blank_page)]) =
      Some (Suspended {| url := "https://shop.example/item"; browser := true;
                         point := AwaitGoto |}, calls) /\
    navigations calls = 3 /\
    closes calls = 0.
Proof.
  apply (retries_are_unbounded 5000 30000 "https://shop.example/item"
           [(400%N, blank_page); (900%N, blank_page)]).
  repeat (constructor; [split; [vm_compute; discriminate | reflexivity]|]);
    constructor.
Defined.


Lemma autoScroll_static_tick_count_witness :
  exists run w',
    Scroll.autoScroll (fun v => v) 10 Scroll.static_page = Some (run, w') /\
    length run =
      Z.to_nat (Z.max 1 ((Scroll.scrollHeight Scroll.static_page + 499) / 500)) /\
    (forall t, last run = Some t ->
               Scroll.at_ms t =
               (100 * Z.max 1 ((Scroll.scrollHeight Scroll.static_page + 499) / 500))%Z).
Proof.
  apply (autoScroll_static_tick_count Scroll.static_page 10).
  vm_compute. lia.
Defined.


Lemma first_match_decides_witness :
  querySelector quirky_hidden_button =
    Some {| classList := ["Order__Button"; "BTN-MAIN"; "hide"];
            textContent := "Order now"; attributes := [] |} /\
  extract quirky_hidden_button =
    extract {| quirksMode := true;
               elements := [ {| classList := ["Order__Button"; "BTN-MAIN"; "hide"];
                                textContent := "Order now"; attributes := [] |} ] |} /\
  (true = true -> extract quirky_hidden_button = None).
Proof.
  destruct first_match_decides as [Hfirst _].
  apply (Hfirst true []
           {| classList := ["Order__Button"; "BTN-MAIN"; "hide"];
              textContent := "Order now"; attributes := [] |}
           [ {| classList := ["order__button"; "btn-main"];
                textContent := "Order later"; attributes := [] |} ]).
  - constructor.
  - reflexivity.
Defined.

Lemma one_session_per_conversation_witness :
  scrapingControllers
    (run [OnScrape 7 "https://shop.example/item"; OnScrape 8 "https://shop.example/b"])
    !! 8%Z = Some 1.
Proof.
  destruct (one_session_per_conversation 5000 30000 Url.has_scheme
              [OnScrape 7 "https://shop.example/item";
               OnScrape 8 "https://shop.example/b"]) as (_ & Hfiled & _).
  apply (Hfiled 1 {| chatId := 8; body := (start "https://shop.example/b").1 |}).
  reflexivity.
Defined.

Lemma stop_reports_whether_a_session_was_active_witness :
  cancelled (step (run [OnScrape 7 "https://shop.example/item"]) (OnStop 7)) 0 = true.
Proof.
  destruct (stop_reports_whether_a_session_was_active 5000 30000 Url.has_scheme
              [OnScrape 7 "https://shop.example/item"] 7) as [Hactive _].
  apply (Hactive 0 {| chatId := 7; body := (start "https://shop.example/item").1 |});
    reflexivity.
Defined.

Lemma stop_spares_other_conversations_witness :
  tokens (step (run [OnScrape 7 "https://shop.example/item";
                     OnScrape 8 "https://shop.example/b"]) (OnStop 7)) !! 1 =
  tokens (run [OnScrape 7 "https://shop.example/item";
               OnScrape 8 "https://shop.example/b"]) !! 1.
Proof.
  apply (stop_spares_other_conversations 5000 30000 Url.has_scheme
           [OnScrape 7 "https://shop.example/item";
            OnScrape 8 "https://shop.example/b"] 7 1
           {| chatId := 8; body := (start "https://shop.example/b").1 |}).
  - reflexivity.
  - simpl. lia.
Defined.

Lemma stop_does_not_free_the_conversation_witness :
  running (run ([OnScrape 7 "https://shop.example/item"] ++
                [OnStop 7; OnScrape 7 "https://shop.example/b"])) =
  running (run [OnScrape 7 "https://shop.example/item"]).
Proof.
  apply (stop_does_not_free_the_conversation 5000 30000 Url.has_scheme
           [OnScrape 7 "https://shop.example/item"] 0
           {| chatId := 7; body := (start "https://shop.example/item").1 |}
           "https://shop.example/b");
    reflexivity.
Defined.

Lemma nobody_active_at_boot (chat : Z) : ~ active (run []) chat.
Proof.
  intros (sid & h & Hh & _).
  change (running boot !! sid = Some h) in Hh. unfold boot in Hh.
  cbn [running] in Hh. rewrite lookup_empty in Hh. discriminate.
Qed.

Lemma scrape_is_admitted_when_idle_witness :
  active (step (run []) (OnScrape 7 "https://shop.example/item")) 7.
Proof.
  apply (scrape_is_admitted_when_idle 5000 30000 Url.has_scheme []
           7 "https://shop.example/item").
  - apply nobody_active_at_boot.
  - reflexivity.
Defined.

Lemma settling_frees_the_conversation_witness :
  tokens (run ([OnScrape 7 "https://shop.example/item"] ++
               [Settle 0 (Launched (Rejected "spawn ENOENT"));
                OnScrape 7 "https://shop.example/b"])) =
  tokens (run [OnScrape 7 "https://shop.example/item"]) ++ [false].
Proof.
  apply (settling_frees_the_conversation 5000 30000 Url.has_scheme
           [OnScrape 7 "https://shop.example/item"] 0
           {| chatId := 7; body := (start "https://shop.example/item").1 |}
           (Launched (Rejected "spawn ENOENT")) (Failed "spawn ENOENT") []
           "https://shop.example/b");
    reflexivity.
Defined.


Lemma scrape_and_stop_in_one_message_witness :
  cancelled (deliver (run []) 7 "/scrape https://shop.example/stop-press")
            (length (tokens (run []))) = true.
Proof.
  destruct (scrape_and_stop_in_one_message 5000 30000 Url.has_scheme []
              7 "/scrape https://shop.example/stop-press"
              "https://shop.example/stop-press"
              (nobody_active_at_boot 7) eq_refl eq_refl eq_refl)
    as (_ & Hset & _).
  exact Hset.
Defined.

Lemma sessions_are_runs_witness :
  exists inputs calls,
    scrape "https://shop.example/item" inputs =
      Some (Suspended {| url := "https://shop.example/item"; browser := true;
                         point := AwaitNewPage |}, calls) /\
    calls_of 0 (trace (run [OnScrape 7 "https://shop.example/item";
                            Settle 0 (Launched (Fulfilled tt))])) =
    request_line "https://shop.example/item" :: calls.
Proof.
  destruct (sessions_are_runs 5000 30000 Url.has_scheme
              [OnScrape 7 "https://shop.example/item";
               Settle 0 (Launched (Fulfilled tt))] 0) as (_ & Hrunning & _).
  apply (Hrunning {| chatId := 7;
                     body := {| url := "https://shop.example/item"; browser := true;
                                point := AwaitNewPage |} |}).
  reflexivity.
Defined.

Lemma bot_navigates_only_where_asked_witness :
  head (calls_of 0
          (trace (run [OnScrape 7 "https://shop.example/item";
                       Settle 0 (Launched (Fulfilled tt));
                       Settle 0 (PageOpened (Fulfilled tt));
                       Settle 0 (UserAgentSet (Fulfilled tt))]))) =
  Some (request_line "https://shop.example/item").
Proof.
  apply (bot_navigates_only_where_asked 5000 30000 Url.has_scheme
           [OnScrape 7 "https://shop.example/item";
            Settle 0 (Launched (Fulfilled tt));
            Settle 0 (PageOpened (Fulfilled tt));
            Settle 0 (UserAgentSet (Fulfilled tt))] 0 "https://shop.example/item").
  apply list_elem_of_lookup. exists 7. reflexivity.
Defined.



End MoreInstances.
